(** * deltachat_rpc_client.rpc: the JSON-RPC transport, embedded and verified

    Shallow embedding of [deltachat_rpc_client/rpc.py] (class [Rpc]):
    the constructor's environment handling, the reader loop, the
    per-account event queues, and the dynamic call dispatcher
    ([__getattr__] / [method]).

    Conventions of the embedding.
    - Python values that travel through the transport are JSON values
      ([json]); Python [None] is [JNull], a tuple or list is [JArr], a
      [dict] is [JObj] (an association list in insertion order with
      unique keys, maintained by [dict_set]).
    - Python [int] is [Z].  Floating point numbers are outside the model:
      the decoder answers [Unsupported] on a literal with a fraction or an
      exponent and on [NaN] / [Infinity].
    - Python [str] is [string], one character per code point below 256.
      Input bytes above 127, a zero byte among the first two of a line,
      and [\u] escapes above 255 are [Unsupported].
    - asyncio is cooperative: code between two [await]s runs atomically.
      A coroutine is split at its suspension points into functions on the
      transport state; the scheduler is the [action] list of a trace. *)

From Stdlib Require Import ZArith Ascii String List DecimalString DecimalPos.
From stdpp Require Import base option list strings gmap fin_maps.

Local Open Scope Z_scope.
Local Open Scope string_scope.
Local Open Scope list_scope.

(** ** Characters that cannot be written inside a string literal *)

Definition dquote : ascii := ascii_of_nat 34.
Definition backslash : ascii := ascii_of_nat 92.
Definition newline : ascii := ascii_of_nat 10.

Definition str1 (c : ascii) : string := String c EmptyString.

(** [q s] is [s] between double quotes, [nl] is the line terminator. *)
Definition q (s : string) : string := String dquote (s +:+ str1 dquote).
Definition nl : string := str1 newline.

(** ** JSON values *)

#[local] Unset Elimination Schemes.
Inductive json : Type :=
| JNull
| JBool (b : bool)
| JInt (n : Z)
| JStr (s : string)
| JArr (items : list json)
| JObj (members : list (string * json)).

#[local] Set Elimination Schemes.

Definition dict := list (string * json).

(** [d[k]] for a [dict] read: the first (and, for a well-formed dict, the
    only) binding of [k]. *)
Fixpoint dict_get (k : string) (d : dict) : option json :=
  match d with
  | [] => None
  | (k', v) :: d' => if String.eqb k k' then Some v else dict_get k d'
  end.

(** [d[k] = v]: overwrite in place when [k] is bound, else append. *)
Fixpoint dict_set (k : string) (v : json) (d : dict) : dict :=
  match d with
  | [] => [(k, v)]
  | (k', v') :: d' =>
      if String.eqb k k' then (k', v) :: d' else (k', v') :: dict_set k v d'
  end.

Definition dict_mem (k : string) (d : dict) : bool :=
  match dict_get k d with Some _ => true | None => false end.

(** ** Exceptions and outcomes *)

Inductive exn : Type :=
| AssertionError (msg : string)
| JsonRpcError (payload : json)
| KeyError (key : json)
| TypeError
| JSONDecodeError
| InvalidStateError.

Inductive outcome : Type :=
| Return (v : json)
| Raise (e : exn).

(** ** Python operators on JSON values *)

(** [x == "..."] against a string constant. *)
Definition py_eq_str (v : json) (s : string) : bool :=
  match v with JStr s' => String.eqb s' s | _ => false end.

Fixpoint is_prefix (p s : string) : bool :=
  match p, s with
  | EmptyString, _ => true
  | String a p', String b s' => if Ascii.eqb a b then is_prefix p' s' else false
  | String _ _, EmptyString => false
  end.

Fixpoint is_substring (p s : string) : bool :=
  is_prefix p s ||
  match s with
  | EmptyString => false
  | String _ s' => is_substring p s'
  end.

(** [k in v] for a string constant [k]: key test on a dict, element test
    on a list, substring test on a str; other values are not iterable. *)
Definition py_contains (k : string) (v : json) : exn + bool :=
  match v with
  | JObj d => inr (dict_mem k d)
  | JArr l => inr (existsb (fun x => py_eq_str x k) l)
  | JStr s => inr (is_substring k s)
  | JNull | JBool _ | JInt _ => inl TypeError
  end.

(** [v[k]] for a string constant [k]. *)
Definition py_getitem (v : json) (k : string) : exn + json :=
  match v with
  | JObj d =>
      match dict_get k d with
      | Some x => inr x
      | None => inl (KeyError (JStr k))
      end
  | _ => inl TypeError
  end.

(** ** Dictionary keys

    Python compares dict keys with [==] and [hash]: [True] and [1] are the
    same key, as are [False] and [0]; lists and dicts are unhashable. *)

Inductive pykey : Type :=
| KNone
| KInt (n : Z)
| KStr (s : string).

Definition to_key (v : json) : exn + pykey :=
  match v with
  | JNull => inr KNone
  | JBool b => inr (KInt (if b then 1 else 0))
  | JInt n => inr (KInt n)
  | JStr s => inr (KStr s)
  | JArr _ | JObj _ => inl TypeError
  end.

#[global] Instance pykey_eq_dec : EqDecision pykey.
Proof. solve_decision. Defined.

Definition pykey_enc (k : pykey) : unit + (Z + string) :=
  match k with
  | KNone => inl tt
  | KInt n => inr (inl n)
  | KStr s => inr (inr s)
  end.

Definition pykey_dec (x : unit + (Z + string)) : pykey :=
  match x with
  | inl _ => KNone
  | inr (inl n) => KInt n
  | inr (inr s) => KStr s
  end.

#[global] Instance pykey_countable : Countable pykey.
Proof.
  refine (inj_countable' pykey_enc pykey_dec _).
  intros []; reflexivity.
Defined.

(** ** [json.dumps] with its default options

    Separators [", "] and [": "], [ensure_ascii=True]: every character
    outside the printable ASCII range is written as a [\u] escape. *)

Definition hex_digit (n : N) : ascii :=
  ascii_of_N (if (n <? 10)%N then 48 + n else 87 + n)%N.

Definition escape_char (c : ascii) : string :=
  let n := N_of_ascii c in
  if Ascii.eqb c dquote then String backslash (str1 dquote)
  else if Ascii.eqb c backslash then String backslash (str1 backslash)
  else if (n =? 10)%N then String backslash "n"
  else if (n =? 13)%N then String backslash "r"
  else if (n =? 9)%N then String backslash "t"
  else if (n =? 12)%N then String backslash "f"
  else if (n =? 8)%N then String backslash "b"
  else if ((n <? 32) || (126 <? n))%N then
    String backslash
      (String "u" (String "0" (String "0"
         (String (hex_digit (n / 16)) (str1 (hex_digit (n mod 16)))))))
  else str1 c.

Fixpoint escape_string (s : string) : string :=
  match s with
  | EmptyString => EmptyString
  | String c s' => escape_char c +:+ escape_string s'
  end.

Definition encode_str (s : string) : string := q (escape_string s).

Definition int_repr (n : Z) : string := NilZero.string_of_int (Z.to_int n).

Fixpoint join (sep : string) (l : list string) : string :=
  match l with
  | [] => EmptyString
  | [x] => x
  | x :: l' => x +:+ sep +:+ join sep l'
  end.

Fixpoint json_dumps (v : json) : string :=
  match v with
  | JNull => "null"
  | JBool true => "true"
  | JBool false => "false"
  | JInt n => int_repr n
  | JStr s => encode_str s
  | JArr l => "[" +:+ join ", " (map json_dumps l) +:+ "]"
  | JObj d =>
      "{" +:+
      join ", " (map (fun kv => encode_str (fst kv) +:+ ": " +:+ json_dumps (snd kv)) d)
      +:+ "}"
  end.

(** ** [json.loads]

    The decoder is a scanner (one character per step) followed by a
    push-down recogniser over the tokens; both recurse structurally on
    their input, so decoding is total.  White space (space, tab, line
    feed, carriage return) may separate any two tokens; a repeated key in
    an object keeps its first position and its last value.  The answer
    [Unsupported] marks a line that leaves the modelled fragment (a float,
    [NaN], [Infinity], text beyond Latin-1): nothing is stated about what
    the program does with it.

    [readline] returns bytes, and [json.loads] decodes them before it
    scans: a zero byte among the first two selects UTF-16 or UTF-32, a
    byte order mark starts with a byte above 127, and what is left is
    UTF-8, in which a line of 7-bit bytes decodes to itself and any other
    line to something else or to [UnicodeDecodeError].  Only the lines
    that decode to themselves are modelled ([plain_line]). *)

Inductive token : Type :=
| TLBrace | TRBrace | TLBrack | TRBrack | TColon | TComma
| TStr (s : string)
| TScalar (v : json).

Inductive lstate : Type :=
| LIdle
| LStr (acc : string)
| LEsc (acc : string)
| LUni (acc : string) (code : N) (todo : nat)
| LLit (rest : string) (v : option json)
| LMinus
| LZero
| LDigits (neg : bool) (n : Z).

Inductive lstep : Type :=
| LNext (emit : list token) (st : lstate)
| LBad
| LOutside.

Definition digit_of (c : ascii) : option Z :=
  let n := N_of_ascii c in
  if ((48 <=? n) && (n <=? 57))%N then Some (Z.of_N (n - 48)) else None.

Definition hex_of (c : ascii) : option N :=
  let n := N_of_ascii c in
  if ((48 <=? n) && (n <=? 57))%N then Some (n - 48)%N
  else if ((97 <=? n) && (n <=? 102))%N then Some (n - 87)%N
  else if ((65 <=? n) && (n <=? 70))%N then Some (n - 55)%N
  else None.

Definition lex_idle (c : ascii) : lstep :=
  let n := N_of_ascii c in
  if ((n =? 32) || (n =? 9) || (n =? 10) || (n =? 13))%N then LNext [] LIdle
  else if (n =? 123)%N then LNext [TLBrace] LIdle
  else if (n =? 125)%N then LNext [TRBrace] LIdle
  else if (n =? 91)%N then LNext [TLBrack] LIdle
  else if (n =? 93)%N then LNext [TRBrack] LIdle
  else if (n =? 58)%N then LNext [TColon] LIdle
  else if (n =? 44)%N then LNext [TComma] LIdle
  else if (n =? 34)%N then LNext [] (LStr EmptyString)
  else if (n =? 110)%N then LNext [] (LLit "ull" (Some JNull))
  else if (n =? 116)%N then LNext [] (LLit "rue" (Some (JBool true)))
  else if (n =? 102)%N then LNext [] (LLit "alse" (Some (JBool false)))
  else if (n =? 78)%N then LNext [] (LLit "aN" None)
  else if (n =? 73)%N then LNext [] (LLit "nfinity" None)
  else if (n =? 45)%N then LNext [] LMinus
  else if (n =? 48)%N then LNext [] LZero
  else if (127 <? n)%N then LOutside
  else match digit_of c with
       | Some d => LNext [] (LDigits false d)
       | None => LBad
       end.

(** What follows a complete integer literal: a fraction or an exponent
    makes it a float; anything else starts the next token. *)
Definition lex_after_int (v : Z) (c : ascii) : lstep :=
  let n := N_of_ascii c in
  if ((n =? 46) || (n =? 101) || (n =? 69))%N then LOutside
  else match lex_idle c with
       | LNext emit st => LNext (TScalar (JInt v) :: emit) st
       | r => r
       end.

Definition unescape (c : ascii) : option ascii :=
  let n := N_of_ascii c in
  if ((n =? 34) || (n =? 92) || (n =? 47))%N then Some c
  else if (n =? 98)%N then Some (ascii_of_N 8)
  else if (n =? 102)%N then Some (ascii_of_N 12)
  else if (n =? 110)%N then Some (ascii_of_N 10)
  else if (n =? 114)%N then Some (ascii_of_N 13)
  else if (n =? 116)%N then Some (ascii_of_N 9)
  else None.

Definition lex_char (st : lstate) (c : ascii) : lstep :=
  let n := N_of_ascii c in
  match st with
  | LIdle => lex_idle c
  | LStr acc =>
      if (n =? 34)%N then LNext [TStr acc] LIdle
      else if (n =? 92)%N then LNext [] (LEsc acc)
      else if (n <? 32)%N then LBad
      else if (127 <? n)%N then LOutside
      else LNext [] (LStr (acc +:+ str1 c))
  | LEsc acc =>
      if (n =? 117)%N then LNext [] (LUni acc 0 4)
      else match unescape c with
           | Some c' => LNext [] (LStr (acc +:+ str1 c'))
           | None => LBad
           end
  | LUni acc code todo =>
      match hex_of c with
      | None => LBad
      | Some d =>
          let code' := (code * 16 + d)%N in
          match todo with
          | S (S todo') => LNext [] (LUni acc code' (S todo'))
          | _ => if (code' <? 256)%N
                 then LNext [] (LStr (acc +:+ str1 (ascii_of_N code')))
                 else LOutside
          end
      end
  | LLit rest v =>
      match rest with
      | EmptyString => LBad
      | String c' rest' =>
          if Ascii.eqb c c' then
            match rest', v with
            | EmptyString, Some x => LNext [TScalar x] LIdle
            | EmptyString, None => LOutside
            | _, _ => LNext [] (LLit rest' v)
            end
          else LBad
      end
  | LMinus =>
      if (n =? 48)%N then LNext [] LZero
      else if (n =? 73)%N then LNext [] (LLit "nfinity" None)
      else match digit_of c with
           | Some d => LNext [] (LDigits true d)
           | None => LBad
           end
  | LZero => lex_after_int 0 c
  | LDigits neg v =>
      match digit_of c with
      | Some d => LNext [] (LDigits neg (v * 10 + d))
      | None => lex_after_int (if neg then - v else v) c
      end
  end.

Inductive lex_result : Type :=
| LexOk (toks : list token)
| LexBad
| LexOutside.

Definition lex_end (st : lstate) : lex_result :=
  match st with
  | LIdle => LexOk []
  | LZero => LexOk [TScalar (JInt 0)]
  | LDigits neg v => LexOk [TScalar (JInt (if neg then - v else v))]
  | _ => LexBad
  end.

Fixpoint lex (st : lstate) (s : string) : lex_result :=
  match s with
  | EmptyString => lex_end st
  | String c s' =>
      match lex_char st c with
      | LNext emit st' =>
          match lex st' s' with
          | LexOk toks => LexOk (emit ++ toks)
          | r => r
          end
      | LBad => LexBad
      | LOutside => LexOutside
      end
  end.

(** The recogniser: a stack of open containers and what is expected next. *)

Inductive frame : Type :=
| FArr (items : list json)
| FObj (members : dict) (key : string).

Inductive pmode : Type :=
| MValue
| MArrFirst
| MArrAfter (items : list json)
| MObjFirst
| MObjKey (members : dict)
| MObjColon (members : dict) (key : string)
| MObjAfter (members : dict)
| MDone (v : json).

(** A complete value goes to the innermost open container. *)
Definition deliver (v : json) (stack : list frame) : pmode * list frame :=
  match stack with
  | [] => (MDone v, [])
  | FArr items :: stack' => (MArrAfter (items ++ [v]), stack')
  | FObj members key :: stack' => (MObjAfter (dict_set key v members), stack')
  end.

Definition parse_value (t : token) (stack : list frame) : option (pmode * list frame) :=
  match t with
  | TScalar v => Some (deliver v stack)
  | TStr s => Some (deliver (JStr s) stack)
  | TLBrack => Some (MArrFirst, stack)
  | TLBrace => Some (MObjFirst, stack)
  | _ => None
  end.

Definition parse_token (m : pmode) (stack : list frame) (t : token)
  : option (pmode * list frame) :=
  match m, t with
  | MValue, _ => parse_value t stack
  | MArrFirst, TRBrack => Some (deliver (JArr []) stack)
  | MArrFirst, _ => parse_value t (FArr [] :: stack)
  | MArrAfter items, TComma => Some (MValue, FArr items :: stack)
  | MArrAfter items, TRBrack => Some (deliver (JArr items) stack)
  | MObjFirst, TRBrace => Some (deliver (JObj []) stack)
  | MObjFirst, TStr k => Some (MObjColon [] k, stack)
  | MObjKey members, TStr k => Some (MObjColon members k, stack)
  | MObjColon members k, TColon => Some (MValue, FObj members k :: stack)
  | MObjAfter members, TComma => Some (MObjKey members, stack)
  | MObjAfter members, TRBrace => Some (deliver (JObj members) stack)
  | _, _ => None
  end.

Fixpoint parse (m : pmode) (stack : list frame) (toks : list token) : option json :=
  match toks with
  | [] => match m with MDone v => Some v | _ => None end
  | t :: toks' =>
      match parse_token m stack t with
      | Some (m', stack') => parse m' stack' toks'
      | None => None
      end
  end.

Inductive loads_result : Type :=
| Loaded (v : json)
| DecodeError
| Unsupported.

Fixpoint seven_bit (line : string) : bool :=
  match line with
  | EmptyString => true
  | String c line' => (N_of_ascii c <? 128)%N && seven_bit line'
  end.

Definition nul_led (line : string) : bool :=
  match line with
  | EmptyString => false
  | String c EmptyString => (N_of_ascii c =? 0)%N
  | String c (String c' _) => ((N_of_ascii c =? 0) || (N_of_ascii c' =? 0))%N
  end.

Definition plain_line (line : string) : bool :=
  seven_bit line && negb (nul_led line).

Definition json_loads (line : string) : loads_result :=
  if plain_line line then
    match lex LIdle line with
    | LexOk toks =>
        match parse MValue [] toks with
        | Some v => Loaded v
        | None => DecodeError
        end
    | LexBad => DecodeError
    | LexOutside => Unsupported
    end
  else Unsupported.

(** ** The transport state

    The fields [id], [event_queues] and [request_events] are those of the
    class.  [futures] is the event loop's store of the futures created by
    [loop.create_future()], addressed by position: [None] is a pending
    future, [Some r] one whose result was set to [r].  [stdin] is what was
    written to the child's standard input, [console] what [print] wrote. *)

Record Rpc : Type := mkRpc {
  id : Z;
  event_queues : gmap pykey (list json);
  request_events : gmap pykey nat;
  futures : list (option json);
  stdin : list string;
  console : list json
}.

Definition with_id (n : Z) (s : Rpc) : Rpc :=
  mkRpc n (event_queues s) (request_events s) (futures s) (stdin s) (console s).
Definition with_event_queues (m : gmap pykey (list json)) (s : Rpc) : Rpc :=
  mkRpc (id s) m (request_events s) (futures s) (stdin s) (console s).
Definition with_request_events (m : gmap pykey nat) (s : Rpc) : Rpc :=
  mkRpc (id s) (event_queues s) m (futures s) (stdin s) (console s).
Definition with_futures (l : list (option json)) (s : Rpc) : Rpc :=
  mkRpc (id s) (event_queues s) (request_events s) l (stdin s) (console s).
Definition with_stdin (l : list string) (s : Rpc) : Rpc :=
  mkRpc (id s) (event_queues s) (request_events s) (futures s) l (console s).
Definition with_console (l : list json) (s : Rpc) : Rpc :=
  mkRpc (id s) (event_queues s) (request_events s) (futures s) (stdin s) l.

(** [start]: the state the transport is in once [start()] has returned. *)
Definition start : Rpc := mkRpc 0 ∅ ∅ [] [] [].

(** ** A state-and-exception monad for the synchronous stretches *)

Definition M (A : Type) : Type := Rpc -> Rpc * (exn + A).

Definition ret {A} (x : A) : M A := fun s => (s, inr x).
Definition raise {A} (e : exn) : M A := fun s => (s, inl e).
Definition bind {A B} (m : M A) (k : A -> M B) : M B :=
  fun s => match m s with
           | (s', inr x) => k x s'
           | (s', inl e) => (s', inl e)
           end.
Definition get_self : M Rpc := fun s => (s, inr s).
Definition update (f : Rpc -> Rpc) : M unit := fun s => (f s, inr tt).
Definition lift {A} (r : exn + A) : M A := fun s => (s, r).

Notation "'do' x <- m ; k" := (bind m (fun x => k))
  (at level 10, x name, m at level 100, k at level 200).
Notation "m ;; k" := (bind m (fun _ => k))
  (at level 100, k at level 200, right associativity).

(** ** The dynamic call dispatcher: [__getattr__] and its [method] *)

Definition truthy {A} (l : list A) : bool :=
  match l with [] => false | _ :: _ => true end.

(** [loop.create_future()]: a fresh pending future. *)
Definition create_future : M nat :=
  do s <- get_self;
  update (with_futures (futures s ++ [None])) ;;
  ret (length (futures s)).

(** The coroutine [method] up to its [await fut]: everything here runs
    without a suspension point.  The result is the future awaited. *)
Definition method (attr : string) (args : list json) (kwargs : dict) : M nat :=
  update (fun s => with_id (id s + 1) s) ;;
  do s <- get_self;
  let request_id := id s in
  (if truthy args && truthy kwargs
   then raise (AssertionError "Mixing positional and keyword arguments")
   else ret tt) ;;
  let request :=
    JObj [("jsonrpc", JStr "2.0");
          ("method", JStr attr);
          ("params", if truthy kwargs then JObj kwargs else JArr args);
          ("id", JInt (id s))] in
  let data := json_dumps request +:+ nl in
  update (fun s => with_stdin (stdin s ++ [data]) s) ;;
  do fut <- create_future;
  update (fun s => with_request_events (<[KInt request_id := fut]> (request_events s)) s) ;;
  ret fut.

(** The rest of [method], run when the awaited future has its result. *)
Definition method_resume (response : json) : outcome :=
  match py_contains "error" response with
  | inl e => Raise e
  | inr true =>
      match py_getitem response "error" with
      | inl e => Raise e
      | inr payload => Raise (JsonRpcError payload)
      end
  | inr false =>
      match py_contains "result" response with
      | inl e => Raise e
      | inr true =>
          match py_getitem response "result" with
          | inl e => Raise e
          | inr v => Return v
          end
      | inr false => Return JNull
      end
  end.

(** ** The reader loop *)

(** [fut.set_result(response)]. *)
Definition set_result (fut : nat) (response : json) : M unit :=
  do s <- get_self;
  match futures s !! fut with
  | Some None => update (with_futures (<[fut := Some response]> (futures s)))
  | _ => raise InvalidStateError
  end.

(** [self.request_events.pop(key)].  [dict.pop] on an empty dict raises
    [KeyError] before it hashes the key. *)
Definition pop_request (key : json) : M nat :=
  do s <- get_self;
  if decide (request_events s = empty) then raise (KeyError key)
  else
    do k <- lift (to_key key);
    match request_events s !! k with
    | Some fut =>
        update (with_request_events (delete k (request_events s))) ;; ret fut
    | None => raise (KeyError key)
    end.

(** [await queue.put(item)] on an unbounded queue: never suspends. *)
Definition queue_put (k : pykey) (item : json) : M unit :=
  update (fun s =>
    with_event_queues (<[k := default [] (event_queues s !! k) ++ [item]]> (event_queues s)) s).

(** The body of the loop for one decoded line. *)
Definition dispatch (response : json) : M unit :=
  do has_id <- lift (py_contains "id" response);
  if has_id : bool then
    do key <- lift (py_getitem response "id");
    do fut <- pop_request key;
    set_result fut response
  else
    do m <- lift (py_getitem response "method");
    if py_eq_str m "event" then
      do params <- lift (py_getitem response "params");
      do account_id <- lift (py_getitem params "contextId");
      do k <- lift (to_key account_id);
      do s <- get_self;
      (if decide (event_queues s !! k = None)
       then update (with_event_queues (<[k := []]> (event_queues s)))
       else ret tt) ;;
      do ev <- lift (py_getitem params "event");
      queue_put k ev
    else
      update (fun s => with_console (console s ++ [response]) s).

Inductive loop_ctl : Type := Continue | Break.

(** One iteration of [reader_loop] on the line [readline()] returned; the
    empty line is end of stream.  [None]: the line is outside the
    modelled fragment of JSON.  A line longer than the stream's limit is
    not returned ([readline] raises) and is not modelled either. *)
Definition reader_loop (line : string) (s : Rpc) : option (Rpc * (exn + loop_ctl)) :=
  match line with
  | EmptyString => Some (s, inr Break)
  | _ =>
      match json_loads line with
      | Loaded response => Some ((dispatch response ;; ret Continue) s)
      | DecodeError => Some (s, inl JSONDecodeError)
      | Unsupported => None
      end
  end.

(** ** The event demultiplexer *)

(** [queue.get()] when the queue holds an item. *)
Definition queue_get (k : pykey) (s : Rpc) : option (Rpc * json) :=
  match event_queues s !! k with
  | Some (ev :: rest) => Some (with_event_queues (<[k := rest]> (event_queues s)) s, ev)
  | _ => None
  end.

Inductive wait_result : Type :=
| WAbsent
| WEvent (k : pykey) (ev : json)
| WSuspend (k : pykey)
| WRaise (e : exn).

(** [wait_for_event(account_id)] up to its first suspension: [WAbsent] is
    the [return None] of the last line, [WEvent] an item the queue held
    already, [WSuspend] the caller parked on the empty queue. *)
Definition wait_for_event (account_id : json) (s : Rpc) : Rpc * wait_result :=
  match to_key account_id with
  | inl e => (s, WRaise e)
  | inr k =>
      match event_queues s !! k with
      | Some _ =>
          match queue_get k s with
          | Some (s', ev) => (s', WEvent k ev)
          | None => (s, WSuspend k)
          end
      | None => (s, WAbsent)
      end
  end.

(** ** The constructor and the child's environment *)

(** A keyword argument of the constructor: a mapping of environment
    variables, or any other value. *)
Inductive kwval : Type :=
| KwEnv (e : gmap string string)
| KwOther (v : json).

(** [if accounts_dir:] on an [Optional[str]]. *)
Definition supplied (accounts_dir : option string) : option string :=
  match accounts_dir with
  | Some (String c p) => Some (String c p)
  | _ => None
  end.

(** [__init__]: the keyword arguments kept in [self._kwargs]. *)
Definition init (accounts_dir : option string) (kwargs : gmap string kwval)
    (os_environ : gmap string string) : exn + gmap string kwval :=
  match supplied accounts_dir with
  | Some path =>
      match default (KwEnv os_environ) (kwargs !! "env") with
      | KwEnv base =>
          inr (<["env" := KwEnv (<["DC_ACCOUNTS_PATH" := path]> base)]> kwargs)
      | KwOther _ => inl TypeError
      end
  | None => inr kwargs
  end.

(** What [create_subprocess_exec] gives the child: the [env] mapping when
    there is one, the parent's environment otherwise. *)
Definition child_env (kwargs : gmap string kwval) (os_environ : gmap string string)
  : gmap string string :=
  match kwargs !! "env" with
  | Some (KwEnv e) => e
  | _ => os_environ
  end.

(** ** Tasks and schedules

    A caller is a task: parked on a future, parked on an event queue, or
    finished.  The reader loop is the one other task.  A schedule is a
    list of [action]s, each one atomic stretch of one task. *)

Inductive task : Type :=
| Awaiting (fut : nat)
| Waiting (k : pykey)
| Finished (o : outcome).

(** The reader task is running, has returned at the end of the stream,
    or was ended by an exception.  [Unmodelled]: it has read a line
    outside the modelled fragment; the program reads on from there and
    the model does not follow it. *)
Inductive reader_status : Type :=
| Running
| Exited
| Crashed (e : exn)
| Unmodelled.

(** [delivered] is the log of the events handed to [wait_for_event]
    callers, in the order the calls returned; the program does not read it. *)
Record sys : Type := mkSys {
  rpc : Rpc;
  reader : reader_status;
  tasks : list task;
  delivered : list (pykey * json)
}.

Inductive action : Type :=
| ACall (attr : string) (args : list json) (kwargs : dict)
| ARecv (line : string)
| AWait (account_id : json)
| AResume (t : nat).

Definition sys_start : sys := mkSys start Running [] [].

Definition step_call (attr : string) (args : list json) (kwargs : dict) (w : sys) : sys :=
  match method attr args kwargs (rpc w) with
  | (s', inr fut) => mkSys s' (reader w) (tasks w ++ [Awaiting fut]) (delivered w)
  | (s', inl e) => mkSys s' (reader w) (tasks w ++ [Finished (Raise e)]) (delivered w)
  end.

Definition step_recv (line : string) (w : sys) : sys :=
  match reader w with
  | Running =>
      match reader_loop line (rpc w) with
      | Some (s', inr Continue) => mkSys s' Running (tasks w) (delivered w)
      | Some (s', inr Break) => mkSys s' Exited (tasks w) (delivered w)
      | Some (s', inl e) => mkSys s' (Crashed e) (tasks w) (delivered w)
      | None => mkSys (rpc w) Unmodelled (tasks w) (delivered w)
      end
  | _ => w
  end.

Definition step_wait (account_id : json) (w : sys) : sys :=
  match wait_for_event account_id (rpc w) with
  | (s', WAbsent) =>
      mkSys s' (reader w) (tasks w ++ [Finished (Return JNull)]) (delivered w)
  | (s', WEvent k ev) =>
      mkSys s' (reader w) (tasks w ++ [Finished (Return ev)]) (delivered w ++ [(k, ev)])
  | (s', WSuspend k) =>
      mkSys s' (reader w) (tasks w ++ [Waiting k]) (delivered w)
  | (s', WRaise e) =>
      mkSys s' (reader w) (tasks w ++ [Finished (Raise e)]) (delivered w)
  end.

(** [AResume t] lets task [t] go on if what it waits for is there.  A
    caller parked in [Queue.get] can go on whenever its queue holds an
    event: [put] wakes the parked callers one per event, the earliest
    first, so the wake-ups of asyncio are among these schedules. *)
Definition step_resume (t : nat) (w : sys) : sys :=
  match tasks w !! t with
  | Some (Awaiting fut) =>
      match futures (rpc w) !! fut with
      | Some (Some response) =>
          mkSys (rpc w) (reader w)
                (<[t := Finished (method_resume response)]> (tasks w)) (delivered w)
      | _ => w
      end
  | Some (Waiting k) =>
      match queue_get k (rpc w) with
      | Some (s', ev) =>
          mkSys s' (reader w) (<[t := Finished (Return ev)]> (tasks w))
                (delivered w ++ [(k, ev)])
      | None => w
      end
  | _ => w
  end.

Definition step (w : sys) (a : action) : sys :=
  match a with
  | ACall attr args kwargs => step_call attr args kwargs w
  | ARecv line => step_recv line w
  | AWait account_id => step_wait account_id w
  | AResume t => step_resume t w
  end.

Definition run (w : sys) (trace : list action) : sys := fold_left step trace w.

(** ** The lines of the [get_info] scenario *)

Definition get_info_request_line : string :=
  "{" +:+ q "jsonrpc" +:+ ": " +:+ q "2.0" +:+ ", " +:+ q "method" +:+ ": " +:+ q "get_info"
      +:+ ", " +:+ q "params" +:+ ": [], " +:+ q "id" +:+ ": 1}" +:+ nl.

Definition get_info_response_line : string :=
  "{" +:+ q "id" +:+ ": 1, " +:+ q "result" +:+ ": {" +:+ q "version" +:+ ": " +:+ q "1.0" +:+ "}}"
      +:+ nl.

(** * Vocabulary of the properties *)

(** The send phase, in closed form. *)
Definition sent (attr : string) (args : list json) (kwargs : dict) (s : Rpc) : Rpc :=
  mkRpc (id s + 1) (event_queues s)
        (<[KInt (id s + 1) := length (futures s)]> (request_events s))
        (futures s ++ [None])
        (stdin s ++ [json_dumps
           (JObj [("jsonrpc", JStr "2.0"); ("method", JStr attr);
                  ("params", if truthy kwargs then JObj kwargs else JArr args);
                  ("id", JInt (id s + 1))]) +:+ nl])
        (console s).

(** The state after the reader loop has resolved [fut], registered under
    [k], with [response]. *)
Definition resolved (k : pykey) (fut : nat) (response : json) (s : Rpc) : Rpc :=
  mkRpc (id s) (event_queues s) (delete k (request_events s))
        (<[fut := Some response]> (futures s)) (stdin s) (console s).

(** What [dispatch] can do with a decoded line, branch by branch: fail
    with the state untouched, resolve a pending call, hit a future that is
    not pending, queue an event, create the queue and fail on the missing
    [event] member, or print. *)
Inductive dispatch_spec (v : json) (s : Rpc) : Rpc * (exn + unit) -> Prop :=
| DFail e :
    dispatch_spec v s (s, inl e)
| DResolve d idv k fut :
    v = JObj d ->
    dict_get "id" d = Some idv ->
    to_key idv = inr k ->
    request_events s !! k = Some fut ->
    futures s !! fut = Some None ->
    dispatch_spec v s (resolved k fut v s, inr tt)
| DInvalid d idv k fut :
    v = JObj d ->
    dict_get "id" d = Some idv ->
    to_key idv = inr k ->
    request_events s !! k = Some fut ->
    futures s !! fut <> Some None ->
    dispatch_spec v s
      (with_request_events (delete k (request_events s)) s, inl InvalidStateError)
| DEvent d m p a k ev :
    v = JObj d ->
    dict_get "id" d = None ->
    dict_get "method" d = Some m ->
    py_eq_str m "event" = true ->
    dict_get "params" d = Some (JObj p) ->
    dict_get "contextId" p = Some a ->
    to_key a = inr k ->
    dict_get "event" p = Some ev ->
    dispatch_spec v s
      (with_event_queues
         (<[k := default [] (event_queues s !! k) ++ [ev]]> (event_queues s)) s,
       inr tt)
| DEventNoPayload d m p a k :
    v = JObj d ->
    dict_get "id" d = None ->
    dict_get "method" d = Some m ->
    py_eq_str m "event" = true ->
    dict_get "params" d = Some (JObj p) ->
    dict_get "contextId" p = Some a ->
    to_key a = inr k ->
    dict_get "event" p = None ->
    dispatch_spec v s
      (with_event_queues
         (<[k := default [] (event_queues s !! k)]> (event_queues s)) s,
       inl (KeyError (JStr "event")))
| DPrint d m :
    v = JObj d ->
    dict_get "id" d = None ->
    dict_get "method" d = Some m ->
    py_eq_str m "event" = false ->
    dispatch_spec v s (with_console (console s ++ [v]) s, inr tt).

(** The fields the dispatcher and the registry live on. *)
Definition same_calls (s s' : Rpc) : Prop :=
  id s' = id s /\ request_events s' = request_events s /\ futures s' = futures s.

(** ** The registry invariant

    Every registered key is a request id already handed out, it names a
    pending future, and no two keys share a future. *)

Definition registry_ok (s : Rpc) : Prop :=
  (forall k fut, request_events s !! k = Some fut ->
     (exists r, k = KInt r /\ r <= id s) /\ futures s !! fut = Some None)
  /\ (forall k1 k2 fut,
        request_events s !! k1 = Some fut ->
        request_events s !! k2 = Some fut -> k1 = k2).

(** ** Following one call through a schedule

    [tracked r fut c w resp]: the call that was given request id [r],
    created future [fut] and runs as task [c] is, in [w], either still
    registered and pending ([resp = None]) or resolved with [v]
    ([resp = Some v]), its task parked or finished with what [v] says. *)

Definition tracked (r : Z) (fut c : nat) (w : sys) (resp : option json) : Prop :=
  r <= id (rpc w) /\
  match resp with
  | None =>
      tasks w !! c = Some (Awaiting fut)
      /\ request_events (rpc w) !! KInt r = Some fut
      /\ futures (rpc w) !! fut = Some None
  | Some v =>
      request_events (rpc w) !! KInt r = None
      /\ futures (rpc w) !! fut = Some (Some v)
      /\ (tasks w !! c = Some (Awaiting fut)
          \/ tasks w !! c = Some (Finished (method_resume v)))
  end.

(** A line that decodes to the object [v] whose [id] member is the
    dictionary key [k]; a response carrying request id [r]. *)
Definition response_key (k : pykey) (line : string) (v : json) : Prop :=
  exists d idv,
    json_loads line = Loaded v /\ v = JObj d
    /\ dict_get "id" d = Some idv /\ to_key idv = inr k.

Definition response_for (r : Z) (line : string) (v : json) : Prop :=
  response_key (KInt r) line v.

(** A key that was handed out and is no longer registered stays so. *)
Definition retired (k : pykey) (w : sys) : Prop :=
  request_events (rpc w) !! k = None /\ exists r, k = KInt r /\ r <= id (rpc w).

(** ** Events on the wire

    The notification format of the data model, read off a line without
    reference to the loop: an object without [id] whose [method] is
    ["event"] and whose [params] object names an account in [contextId].
    [wire_event] also asks for the [event] member and returns it. *)

Definition wire_event_account (line : string) : option pykey :=
  match json_loads line with
  | Loaded (JObj d) =>
      match dict_get "id" d, dict_get "method" d, dict_get "params" d with
      | None, Some m, Some (JObj p) =>
          if py_eq_str m "event" then
            match dict_get "contextId" p with
            | Some a => match to_key a with inr k => Some k | inl _ => None end
            | None => None
            end
          else None
      | _, _, _ => None
      end
  | _ => None
  end.

Definition wire_event (line : string) : option (pykey * json) :=
  match json_loads line with
  | Loaded (JObj d) =>
      match dict_get "id" d, dict_get "method" d, dict_get "params" d with
      | None, Some m, Some (JObj p) =>
          if py_eq_str m "event" then
            match dict_get "contextId" p, dict_get "event" p with
            | Some a, Some ev =>
                match to_key a with inr k => Some (k, ev) | inl _ => None end
            | _, _ => None
            end
          else None
      | _, _, _ => None
      end
  | _ => None
  end.

(** The events for account [k]: on the wire of a schedule, handed to
    callers so far, and waiting in the queue. *)
Definition pick (k : pykey) (x : pykey * json) : option json :=
  if decide (x.1 = k) then Some x.2 else None.

Definition wire_events (k : pykey) (t : list action) : list json :=
  omap (fun a => match a with
                 | ARecv line => wire_event line ≫= pick k
                 | _ => None
                 end) t.

Definition delivered_to (k : pykey) (w : sys) : list json :=
  omap (pick k) (delivered w).

Definition queue_of (k : pykey) (s : Rpc) : list json :=
  default [] (event_queues s !! k).

(** What was handed out for [k], then what is queued, then what arrived
    after the loop stopped, is what the wire carried for [k]. *)
Definition fifo_inv (k : pykey) (t : list action) (w : sys) : Prop :=
  exists rest,
    delivered_to k w ++ queue_of k (rpc w) ++ rest = wire_events k t
    /\ (reader w = Running -> rest = []).

(** ** Inputs of the worked examples *)

(** The seventh call after [start] and a failure response for it. *)
Definition seven_calls : list action := replicate 7 (ACall "get_info" [] []).

Definition error_line_7 : string :=
  "{" +:+ q "id" +:+ ": 7, " +:+ q "error" +:+ ": {" +:+ q "code" +:+ ": -1, "
      +:+ q "message" +:+ ": " +:+ q "x" +:+ "}}" +:+ nl.

Definition bare_line_1 : string := "{" +:+ q "id" +:+ ": 1}" +:+ nl.

Definition demo_environ : gmap string string :=
  <["PATH" := "/usr/bin"]> ∅.

Definition demo_kwargs : gmap string kwval :=
  <["env" := KwEnv (<["DC_ACCOUNTS_PATH" := "/old"]> (<["HOME" := "/root"]> ∅))]>
    (<["cwd" := KwOther (JStr "/srv")]> ∅).

(** Three calls in flight, answered in the reverse order. *)
Definition result_line (n : Z) (word : string) : string :=
  "{" +:+ q "id" +:+ ": " +:+ int_repr n +:+ ", " +:+ q "result" +:+ ": " +:+ q word +:+ "}" +:+ nl.

Definition reversed_answers : list action :=
  [ACall "get_fresh_msgs" [JInt 3] [];
   ARecv (result_line 3 "three");
   ARecv (result_line 2 "two");
   ARecv (result_line 1 "one");
   AResume 1%nat; AResume 0%nat; AResume 2%nat].

(** The scenario of two events for account 5, with an event for account 7
    in between. *)
Definition event_line (account : Z) (word : string) : string :=
  "{" +:+ q "method" +:+ ": " +:+ q "event" +:+ ", " +:+ q "params" +:+ ": {"
      +:+ q "contextId" +:+ ": " +:+ int_repr account +:+ ", "
      +:+ q "event" +:+ ": " +:+ q word +:+ "}}" +:+ nl.

Definition two_events : list action :=
  [ARecv (event_line 5 "A"); ARecv (event_line 7 "X"); ARecv (event_line 5 "B");
   AWait (JInt 5); AWait (JInt 5)].

Definition stray_line : string := "{" +:+ q "foo" +:+ ": 1}" +:+ nl.

(** * Further vocabulary *)

(** ** The request log *)

(** The line [method] writes for a call that was given request id [n]. *)
Definition request_line (attr : string) (args : list json) (kwargs : dict) (n : Z)
  : string :=
  json_dumps (JObj [("jsonrpc", JStr "2.0"); ("method", JStr attr);
                    ("params", if truthy kwargs then JObj kwargs else JArr args);
                    ("id", JInt n)]) +:+ nl.

(** The request lines of a schedule whose first call is the one after
    [n] earlier calls: every call takes the next number, a call with both
    kinds of arguments takes a number and writes nothing. *)
Fixpoint requests_from (n : Z) (t : list action) : list string :=
  match t with
  | [] => []
  | ACall attr args kwargs :: t' =>
      (if truthy args && truthy kwargs then []
       else [request_line attr args kwargs (n + 1)])
      ++ requests_from (n + 1) t'
  | _ :: t' => requests_from n t'
  end.

Definition is_call (a : action) : bool :=
  match a with ACall _ _ _ => true | _ => false end.

(** How many calls a schedule makes. *)
Fixpoint calls_made (t : list action) : Z :=
  match t with
  | [] => 0
  | a :: t' => (if is_call a then 1 else 0) + calls_made t'
  end.

(** Characters of the printable ASCII range, space to tilde. *)
Definition printable (c : ascii) : bool :=
  let n := N_of_ascii c in ((32 <=? n) && (n <=? 126))%N.

Fixpoint all_printable (s : string) : bool :=
  match s with
  | EmptyString => true
  | String c s' => printable c && all_printable s'
  end.

Definition is_recv (a : action) : bool :=
  match a with ARecv _ => true | _ => false end.

(** ** Messages that are printed *)

(** A line that decodes to an object without [id] whose [method] member
    is there and is not ["event"]: the message itself. *)
Definition wire_unrecognized (line : string) : option json :=
  match json_loads line with
  | Loaded (JObj d) =>
      match dict_get "id" d, dict_get "method" d with
      | None, Some m => if py_eq_str m "event" then None else Some (JObj d)
      | _, _ => None
      end
  | _ => None
  end.

Definition wire_printed (t : list action) : list json :=
  omap (fun a => match a with
                 | ARecv line => wire_unrecognized line
                 | _ => None
                 end) t.

(** ** Calls and event consumers *)

(** The part of the state the dispatcher and the loop's response branch
    work on, and the console. *)
Definition call_side (s : Rpc) : Z * gmap pykey nat * list (option json) * list string * list json :=
  (id s, request_events s, futures s, stdin s, console s).

(** A schedule without its [wait_for_event] calls and without any
    resumption. *)
Fixpoint without_consumers (t : list action) : list action :=
  match t with
  | [] => []
  | a :: t' =>
      if is_call a || is_recv a then a :: without_consumers t'
      else without_consumers t'
  end.

Definition chatter_line : string :=
  "{" +:+ q "method" +:+ ": " +:+ q "log" +:+ ", " +:+ q "params" +:+ ": []}" +:+ nl.

Definition bare_event_line : string :=
  "{" +:+ q "method" +:+ ": " +:+ q "event" +:+ ", " +:+ q "params" +:+ ": {"
      +:+ q "contextId" +:+ ": 5}}" +:+ nl.

(** An event notification that also carries an [id]. *)
Definition event_line_with_id : string :=
  "{" +:+ q "id" +:+ ": 1, " +:+ q "method" +:+ ": " +:+ q "event" +:+ ", " +:+ q "params"
      +:+ ": {" +:+ q "contextId" +:+ ": 5, " +:+ q "event" +:+ ": " +:+ q "A" +:+ "}}" +:+ nl.

(** ** The codec, token by token *)

(** Python dicts have one binding per key: objects all the way down
    whose keys are pairwise different. *)
Fixpoint fresh_key (k : string) (keys : list string) : bool :=
  match keys with
  | [] => true
  | k' :: keys' => negb (String.eqb k k') && fresh_key k keys'
  end.

Fixpoint unique_keys (keys : list string) : bool :=
  match keys with
  | [] => true
  | k :: keys' => fresh_key k keys' && unique_keys keys'
  end.

Fixpoint well_formed (v : json) : bool :=
  match v with
  | JArr items => forallb well_formed items
  | JObj members =>
      unique_keys (map fst members)
      && forallb (fun kv => well_formed (snd kv)) members
  | _ => true
  end.

(** The tokens of the text of a value. *)
Fixpoint separated (groups : list (list token)) : list token :=
  match groups with
  | [] => []
  | [g] => g
  | g :: groups' => g ++ TComma :: separated groups'
  end.

Fixpoint tokens (v : json) : list token :=
  match v with
  | JNull | JBool _ | JInt _ => [TScalar v]
  | JStr s => [TStr s]
  | JArr items => TLBrack :: separated (map tokens items) ++ [TRBrack]
  | JObj members =>
      TLBrace ::
      separated (map (fun kv => TStr (fst kv) :: TColon :: tokens (snd kv)) members)
      ++ [TRBrace]
  end.

(** Tokens put in front of the scanner's answer for what follows. *)
Definition prepend (toks : list token) (r : lex_result) : lex_result :=
  match r with
  | LexOk toks' => LexOk (toks ++ toks')
  | LexBad => LexBad
  | LexOutside => LexOutside
  end.

(** What may follow a number: nothing, or a character that is neither a
    digit nor the start of a fraction or an exponent. *)
Definition ends_number (rest : string) : bool :=
  match rest with
  | EmptyString => true
  | String c _ =>
      let n := N_of_ascii c in
      match digit_of c with
      | Some _ => false
      | None => negb ((n =? 46) || (n =? 101) || (n =? 69))%N
      end
  end.

(** The value of a digit sequence read after [acc]. *)
Fixpoint digits_value (d : Decimal.uint) (acc : Z) : Z :=
  match d with
  | Decimal.Nil => acc
  | Decimal.D0 d' => digits_value d' (acc * 10 + 0)
  | Decimal.D1 d' => digits_value d' (acc * 10 + 1)
  | Decimal.D2 d' => digits_value d' (acc * 10 + 2)
  | Decimal.D3 d' => digits_value d' (acc * 10 + 3)
  | Decimal.D4 d' => digits_value d' (acc * 10 + 4)
  | Decimal.D5 d' => digits_value d' (acc * 10 + 5)
  | Decimal.D6 d' => digits_value d' (acc * 10 + 6)
  | Decimal.D7 d' => digits_value d' (acc * 10 + 7)
  | Decimal.D8 d' => digits_value d' (acc * 10 + 8)
  | Decimal.D9 d' => digits_value d' (acc * 10 + 9)
  end.

(** A digit sequence that starts with a digit other than zero. *)
Definition leading_digit (d : Decimal.uint) : Prop :=
  match d with
  | Decimal.Nil | Decimal.D0 _ => False
  | _ => True
  end.

(** The text [x] is scanned to the tokens [toks], whatever follows it
    that may follow a number. *)
Definition scans (x : string) (toks : list token) : Prop :=
  forall rest,
    ends_number rest = true ->
    lex LIdle (x +:+ rest) = prepend toks (lex LIdle rest).

(** The recogniser, given the tokens of [v] where a value is expected,
    hands [v] to the innermost open container and goes on. *)
Definition parses (v : json) : Prop :=
  forall stack toks,
    parse MValue stack (tokens v ++ toks)
      = parse (deliver v stack).1 (deliver v stack).2 toks.

(** ** The requests as objects *)

(** The request object of a call that was given request id [n]. *)
Definition request_object (attr : string) (args : list json) (kwargs : dict) (n : Z)
  : json :=
  JObj [("jsonrpc", JStr "2.0"); ("method", JStr attr);
        ("params", if truthy kwargs then JObj kwargs else JArr args);
        ("id", JInt n)].

Fixpoint requests_meant (n : Z) (t : list action) : list json :=
  match t with
  | [] => []
  | ACall attr args kwargs :: t' =>
      (if truthy args && truthy kwargs then []
       else [request_object attr args kwargs (n + 1)])
      ++ requests_meant (n + 1) t'
  | _ :: t' => requests_meant n t'
  end.

(** The arguments of a call are Python values: dicts with one binding per
    key. *)
Definition call_well_formed (a : action) : bool :=
  match a with
  | ACall _ args kwargs => forallb well_formed args && well_formed (JObj kwargs)
  | _ => true
  end.

(** Calls with quotes, line breaks and nesting in their arguments. *)
Definition awkward_calls : list action :=
  [ACall "send_msg" [] [("chat", JInt (-12));
                        ("text", JStr (String dquote (String newline "hi\")));
                        ("opts", JObj [("a", JArr [JNull; JBool true; JObj []]);
                                       ("b", JStr (str1 (ascii_of_nat 233)))])];
   ARecv (event_line 5 "A");
   ACall "bad" [JInt 1] [("x", JInt 2)];
   ACall "get_next_event" [JArr [JInt 0; JStr EmptyString]; JInt 100200300400500] []].

(** Every pending future is registered under some request id. *)
Definition pending_registered (s : Rpc) : Prop :=
  forall fut, futures s !! fut = Some None ->
              exists r, request_events s !! KInt r = Some fut.

(** * Properties *)

(** ** The codec on concrete lines *)

Example loads_request_line :
  json_loads get_info_request_line
    = Loaded (JObj [("jsonrpc", JStr "2.0"); ("method", JStr "get_info");
                    ("params", JArr []); ("id", JInt 1)]).
Proof. vm_compute. reflexivity. Qed.

Example loads_compact_response :
  json_loads ("{" +:+ q "id" +:+ ":1," +:+ q "result" +:+ ":{" +:+ q "version" +:+ ":"
                  +:+ q "1.0" +:+ "}}")
    = Loaded (JObj [("id", JInt 1); ("result", JObj [("version", JStr "1.0")])]).
Proof. vm_compute. reflexivity. Qed.

Example loads_repeated_key :
  json_loads ("{" +:+ q "a" +:+ ": 1, " +:+ q "b" +:+ ": [true, null], " +:+ q "a" +:+ ": -20}")
    = Loaded (JObj [("a", JInt (-20)); ("b", JArr [JBool true; JNull])]).
Proof. vm_compute. reflexivity. Qed.

Example loads_rejects :
  json_loads "[1,]" = DecodeError
  /\ json_loads "01" = DecodeError
  /\ json_loads "{1: 2}" = DecodeError
  /\ json_loads "nul" = DecodeError
  /\ json_loads EmptyString = DecodeError
  /\ json_loads "1.5" = Unsupported.
Proof. vm_compute. repeat split; reflexivity. Qed.

Example loads_other_encodings :
  json_loads (String "x" (str1 (ascii_of_nat 255))) = Unsupported
  /\ json_loads (String (ascii_of_nat 0) "[" +:+ String (ascii_of_nat 0) "]"
                   +:+ String (ascii_of_nat 0) nl) = Unsupported
  /\ json_loads ("[" +:+ q (str1 (ascii_of_nat 0)) +:+ "]") = DecodeError.
Proof. vm_compute. repeat split; reflexivity. Qed.

Example dumps_escapes :
  json_dumps (JArr [JInt (-12); JInt 0; JStr (String newline (String dquote "a")); JNull])
    = "[-12, 0, " +:+ q (String backslash "n" +:+ String backslash (str1 dquote) +:+ "a")
        +:+ ", null]".
Proof. vm_compute. reflexivity. Qed.

Example loads_dumps_sample :
  let v := JObj [("jsonrpc", JStr "2.0"); ("method", JStr "send_msg");
                 ("params", JObj [("chat", JInt 12); ("text", JStr (String dquote "hi"))]);
                 ("id", JInt 41)] in
  json_loads (json_dumps v +:+ nl) = Loaded v.
Proof. vm_compute. reflexivity. Qed.

(** ** Basic facts about the synchronous stretches *)

Lemma json_loads_nonempty line v :
  json_loads line = Loaded v -> line <> EmptyString.
Proof. intros H ->. discriminate H. Qed.

Lemma reader_loop_loaded line v s :
  json_loads line = Loaded v ->
  reader_loop line s = Some ((dispatch v ;; ret Continue) s).
Proof.
  intros H. unfold reader_loop. rewrite H.
  destruct line; [discriminate H | reflexivity].
Qed.

Lemma dict_mem_get k d : dict_mem k d = true <-> is_Some (dict_get k d).
Proof.
  unfold dict_mem. destruct (dict_get k d); split; intros H; try done.
Qed.

(** Unfold the monad's plumbing until a lookup blocks evaluation. *)
Ltac run_m :=
  repeat (progress (unfold bind, lift, ret, raise, get_self, update,
                      pop_request, set_result, queue_put, create_future,
                      py_contains, py_getitem, dict_mem; simpl)).

Lemma method_ok attr args kwargs s :
  truthy args && truthy kwargs = false ->
  method attr args kwargs s = (sent attr args kwargs s, inr (length (futures s))).
Proof.
  intros H. unfold method, bind, update, get_self, create_future, ret; simpl.
  rewrite H. reflexivity.
Qed.

Lemma method_mixed attr args kwargs s :
  truthy args && truthy kwargs = true ->
  method attr args kwargs s =
    (with_id (id s + 1) s,
     inl (AssertionError "Mixing positional and keyword arguments")).
Proof.
  intros H. unfold method, bind, update, get_self, raise; simpl.
  rewrite H. reflexivity.
Qed.

Lemma dispatch_response d idv k fut s :
  dict_get "id" d = Some idv ->
  to_key idv = inr k ->
  request_events s !! k = Some fut ->
  futures s !! fut = Some None ->
  dispatch (JObj d) s = (resolved k fut (JObj d) s, inr tt).
Proof.
  intros Hid Hk Hreq Hfut.
  unfold dispatch. run_m. rewrite Hid. run_m.
  rewrite decide_False by (intros E; by rewrite E in Hreq).
  run_m. rewrite Hk. run_m.
  rewrite Hreq. run_m. rewrite Hfut. reflexivity.
Qed.

Lemma dispatch_unknown_id d idv k s :
  dict_get "id" d = Some idv ->
  to_key idv = inr k ->
  request_events s !! k = None ->
  dispatch (JObj d) s = (s, inl (KeyError idv)).
Proof.
  intros Hid Hk Hreq.
  unfold dispatch. run_m. rewrite Hid. run_m.
  case_decide; run_m; [done |]. rewrite Hk. run_m.
  rewrite Hreq. reflexivity.
Qed.

(** A pending call whose response line is read, then resumed. *)
Lemma resolve_then_resume w t fut k line d idv :
  reader w = Running ->
  tasks w !! t = Some (Awaiting fut) ->
  request_events (rpc w) !! k = Some fut ->
  futures (rpc w) !! fut = Some None ->
  json_loads line = Loaded (JObj d) ->
  dict_get "id" d = Some idv ->
  to_key idv = inr k ->
  tasks (run w [ARecv line; AResume t]) !! t
    = Some (Finished (method_resume (JObj d))).
Proof.
  intros Hrun Ht Hreq Hfut Hload Hid Hk.
  unfold run; simpl. unfold step_recv. rewrite Hrun.
  rewrite (reader_loop_loaded _ _ _ Hload).
  unfold bind at 1. rewrite (dispatch_response _ _ _ _ _ Hid Hk Hreq Hfut).
  unfold ret, step_resume; simpl. rewrite Ht.
  rewrite list_lookup_insert_eq by (eapply lookup_lt_Some; eassumption).
  simpl. apply list_lookup_insert_eq. eapply lookup_lt_Some; eassumption.
Qed.

(** ** The dispatcher: scenario, outcomes, misuse *)

(** C2.  After [start], [get_info()] writes exactly the request line with
    an empty positional array and id 1, newline-terminated, and parks the
    caller; once the reader loop has read the response line with id 1 the
    call returns the [result] object of that line. *)
Theorem C2_get_info_scenario :
  let w1 := run sys_start [ACall "get_info" [] []] in
  let w2 := run w1 [ARecv get_info_response_line; AResume 0%nat] in
  stdin (rpc w1) = [get_info_request_line]
  /\ tasks w1 = [Awaiting 0%nat]
  /\ stdin (rpc w2) = [get_info_request_line]
  /\ tasks w2 = [Finished (Return (JObj [("version", JStr "1.0")]))].
Proof. vm_compute. repeat split; reflexivity. Qed.

Lemma method_resume_error d payload :
  dict_get "error" d = Some payload ->
  method_resume (JObj d) = Raise (JsonRpcError payload).
Proof. intros H. unfold method_resume. run_m. rewrite H. reflexivity. Qed.

Lemma method_resume_result d v :
  dict_get "error" d = None ->
  dict_get "result" d = Some v ->
  method_resume (JObj d) = Return v.
Proof.
  intros He Hr. unfold method_resume. run_m. rewrite He. run_m.
  rewrite Hr. reflexivity.
Qed.

Lemma method_resume_neither d :
  dict_get "error" d = None ->
  dict_get "result" d = None ->
  method_resume (JObj d) = Return JNull.
Proof.
  intros He Hr. unfold method_resume. run_m. rewrite He. run_m.
  rewrite Hr. reflexivity.
Qed.

(** C3.  A pending call (task [t] parked on the future registered under
    request id [r]) whose response line carries an [error] member fails
    with [JsonRpcError] holding that member unchanged; when the line
    carries no [error] but a [result] member the call returns that
    member. *)
Theorem C3_error_and_result_propagation :
  forall (w : sys) (t fut : nat) (r : Z) (line : string) (d : dict) (idv : json),
    reader w = Running ->
    tasks w !! t = Some (Awaiting fut) ->
    request_events (rpc w) !! KInt r = Some fut ->
    futures (rpc w) !! fut = Some None ->
    json_loads line = Loaded (JObj d) ->
    dict_get "id" d = Some idv ->
    to_key idv = inr (KInt r) ->
    (forall payload,
        dict_get "error" d = Some payload ->
        tasks (run w [ARecv line; AResume t]) !! t
          = Some (Finished (Raise (JsonRpcError payload))))
    /\
    (forall v,
        dict_get "error" d = None ->
        dict_get "result" d = Some v ->
        tasks (run w [ARecv line; AResume t]) !! t = Some (Finished (Return v))).
Proof.
  intros w t fut r line d idv Hrun Ht Hreq Hfut Hload Hid Hk.
  pose proof (resolve_then_resume w t fut (KInt r) line d idv
                Hrun Ht Hreq Hfut Hload Hid Hk) as H.
  split.
  - intros payload He. rewrite H. by rewrite (method_resume_error d payload He).
  - intros v He Hr. rewrite H. by rewrite (method_resume_result d v He Hr).
Qed.

Lemma C3_witness :
  tasks (run (run sys_start seven_calls) [ARecv error_line_7; AResume 6%nat]) !! 6%nat
    = Some (Finished (Raise (JsonRpcError (JObj [("code", JInt (-1)); ("message", JStr "x")])))).
Proof.
  refine (proj1 (C3_error_and_result_propagation
                   (run sys_start seven_calls) 6%nat 6%nat 7 error_line_7
                   [("id", JInt 7);
                    ("error", JObj [("code", JInt (-1)); ("message", JStr "x")])]
                   (JInt 7) _ _ _ _ _ _ _) _ _);
    vm_compute; reflexivity.
Defined.

(** C10.  A response for a pending call that carries neither [error] nor
    [result] makes the call return [None]: no exception is raised. *)
Theorem C10_neither_member_returns_none :
  forall (w : sys) (t fut : nat) (r : Z) (line : string) (d : dict) (idv : json),
    reader w = Running ->
    tasks w !! t = Some (Awaiting fut) ->
    request_events (rpc w) !! KInt r = Some fut ->
    futures (rpc w) !! fut = Some None ->
    json_loads line = Loaded (JObj d) ->
    dict_get "id" d = Some idv ->
    to_key idv = inr (KInt r) ->
    dict_get "error" d = None ->
    dict_get "result" d = None ->
    tasks (run w [ARecv line; AResume t]) !! t = Some (Finished (Return JNull)).
Proof.
  intros w t fut r line d idv Hrun Ht Hreq Hfut Hload Hid Hk He Hr.
  rewrite (resolve_then_resume w t fut (KInt r) line d idv
             Hrun Ht Hreq Hfut Hload Hid Hk).
  by rewrite (method_resume_neither d He Hr).
Qed.

Lemma C10_witness :
  tasks (run (run sys_start [ACall "get_info" [] []])
             [ARecv bare_line_1; AResume 0%nat]) !! 0%nat
    = Some (Finished (Return JNull)).
Proof.
  refine (C10_neither_member_returns_none
            (run sys_start [ACall "get_info" [] []]) 0%nat 0%nat 1 bare_line_1
            [("id", JInt 1)] (JInt 1) _ _ _ _ _ _ _ _ _);
    vm_compute; reflexivity.
Defined.

(** C8.  A call given both positional and keyword arguments raises
    [AssertionError] in its first synchronous stretch: the task is
    finished at once, nothing is written to the child, no future is
    created and nothing is registered. *)
Theorem C8_mixed_arguments_rejected :
  forall (w : sys) (attr : string) (args : list json) (kwargs : dict),
    args <> [] ->
    kwargs <> [] ->
    let w' := step w (ACall attr args kwargs) in
    tasks w' = tasks w ++
      [Finished (Raise (AssertionError "Mixing positional and keyword arguments"))]
    /\ stdin (rpc w') = stdin (rpc w)
    /\ futures (rpc w') = futures (rpc w)
    /\ request_events (rpc w') = request_events (rpc w).
Proof.
  intros w attr args kwargs Ha Hk. simpl. unfold step_call.
  rewrite method_mixed.
  - simpl. repeat split; reflexivity.
  - destruct args; [done |]. destruct kwargs; [done |]. reflexivity.
Qed.

Lemma C8_witness :
  tasks (step sys_start (ACall "send_msg" [JInt 1] [("text", JStr "hi")]))
    = [Finished (Raise (AssertionError "Mixing positional and keyword arguments"))]
  /\ stdin (rpc (step sys_start (ACall "send_msg" [JInt 1] [("text", JStr "hi")]))) = [].
Proof.
  pose proof (C8_mixed_arguments_rejected sys_start "send_msg"
                [JInt 1] [("text", JStr "hi")]) as H.
  destruct H as (Ht & Hs & _); [discriminate | discriminate |].
  split; [exact Ht | exact Hs].
Defined.

(** ** The constructor *)

(** C9.  With a storage root supplied (a non-empty [accounts_dir], the
    constructor's own test) and [env], when given, a mapping: the child's
    environment binds [DC_ACCOUNTS_PATH] to that path whatever it was bound
    to before, every other variable of the environment the child would
    otherwise get ([env] if given, else [os.environ]) is unchanged, and so
    is every other keyword argument. *)
Theorem C9_storage_root_environment :
  forall (path : string) (kwargs : gmap string kwval) (os_environ : gmap string string),
    path <> EmptyString ->
    (kwargs !! "env" = None \/ exists e, kwargs !! "env" = Some (KwEnv e)) ->
    exists kwargs' : gmap string kwval,
      init (Some path) kwargs os_environ = inr kwargs'
      /\ child_env kwargs' os_environ !! "DC_ACCOUNTS_PATH" = Some path
      /\ (forall var : string, var <> "DC_ACCOUNTS_PATH" ->
            child_env kwargs' os_environ !! var = child_env kwargs os_environ !! var)
      /\ (forall key : string, key <> "env" -> kwargs' !! key = kwargs !! key).
Proof.
  intros path kwargs os_environ Hp Henv.
  destruct path as [| c p]; [done |].
  pose (base := child_env kwargs os_environ).
  exists (<["env" := KwEnv (<["DC_ACCOUNTS_PATH" := String c p]> base)]> kwargs).
  assert (Hinit : default (KwEnv os_environ) (kwargs !! "env") = KwEnv base).
  { unfold base, child_env. destruct Henv as [-> | [e ->]]; reflexivity. }
  split; [| split; [| split]].
  - unfold init; simpl. rewrite Hinit. reflexivity.
  - unfold child_env at 1. rewrite lookup_insert_eq. apply lookup_insert_eq.
  - intros var Hvar. unfold child_env at 1. rewrite lookup_insert_eq.
    rewrite lookup_insert_ne by congruence. reflexivity.
  - intros key Hkey. rewrite lookup_insert_ne by congruence. reflexivity.
Qed.

Lemma C9_witness :
  exists kwargs' : gmap string kwval,
    init (Some "/srv/accounts") demo_kwargs demo_environ = inr kwargs'
    /\ child_env kwargs' demo_environ !! "DC_ACCOUNTS_PATH" = Some "/srv/accounts"
    /\ child_env kwargs' demo_environ !! "HOME" = Some "/root"
    /\ child_env kwargs' demo_environ !! "PATH" = None.
Proof.
  destruct (C9_storage_root_environment "/srv/accounts" demo_kwargs demo_environ)
    as (kw & Hinit & Hdc & Hrest & _).
  - discriminate.
  - right. eexists. vm_compute. reflexivity.
  - exists kw. split; [exact Hinit |]. split; [exact Hdc |]. split.
    + rewrite Hrest by discriminate. vm_compute. reflexivity.
    + rewrite Hrest by discriminate. vm_compute. reflexivity.
Defined.

(** An empty [accounts_dir] is falsy: the constructor leaves the keyword
    arguments alone, as it does for [None]. *)
Lemma init_not_supplied kwargs os_environ :
  init None kwargs os_environ = inr kwargs
  /\ init (Some EmptyString) kwargs os_environ = inr kwargs.
Proof. split; reflexivity. Qed.

(** ** The reader loop, case by case *)

Lemma with_event_queues_id s : with_event_queues (event_queues s) s = s.
Proof. destruct s; reflexivity. Qed.

Lemma dispatch_cases v s : dispatch_spec v s (dispatch v s).
Proof.
  destruct v as [| b | n | str | items | d]; unfold dispatch; run_m;
    try apply DFail.
  - destruct (is_substring _ str); run_m; apply DFail.
  - destruct (existsb _ items); run_m; apply DFail.
  - destruct (dict_get "id" d) as [idv |] eqn:Hid; run_m.
    + case_decide; run_m; [apply DFail |].
      destruct (to_key idv) as [e | k] eqn:Hk; run_m; [apply DFail |].
      destruct (request_events s !! k) as [fut |] eqn:Hreq; run_m;
        [| apply DFail].
      destruct (futures s !! fut) as [[resp |] |] eqn:Hfut; run_m.
      * eapply DInvalid; eauto. congruence.
      * change (dispatch_spec (JObj d) s (resolved k fut (JObj d) s, inr tt)).
        eapply DResolve; eauto.
      * eapply DInvalid; eauto. congruence.
    + destruct (dict_get "method" d) as [m |] eqn:Hm; run_m; [| apply DFail].
      destruct (py_eq_str m "event") eqn:Hev; run_m.
      * destruct (dict_get "params" d) as [params |] eqn:Hp; run_m;
          [| apply DFail].
        destruct params as [| b | n | str | items | p]; run_m;
          try apply DFail.
        destruct (dict_get "contextId" p) as [a |] eqn:Ha; run_m;
          [| apply DFail].
        destruct (to_key a) as [e | k] eqn:Hk; run_m; [apply DFail |].
        destruct (event_queues s !! k) as [queue |] eqn:Hq.
        -- rewrite decide_False by congruence. run_m.
           destruct (dict_get "event" p) as [ev |] eqn:He; run_m.
           ++ exact (DEvent (JObj d) s d m p a k ev eq_refl Hid Hm Hev Hp Ha Hk He).
           ++ pose proof (DEventNoPayload (JObj d) s d m p a k
                            eq_refl Hid Hm Hev Hp Ha Hk He) as H.
              rewrite Hq in H. simpl in H. rewrite insert_id in H by done.
              rewrite with_event_queues_id in H. exact H.
        -- rewrite decide_True by done. run_m.
           destruct (dict_get "event" p) as [ev |] eqn:He; run_m.
           ++ rewrite lookup_insert_eq; simpl. unfold with_event_queues; simpl.
              rewrite insert_insert_eq.
              pose proof (DEvent (JObj d) s d m p a k ev eq_refl Hid Hm Hev Hp Ha Hk He) as H.
              rewrite Hq in H. simpl in H. exact H.
           ++ pose proof (DEventNoPayload (JObj d) s d m p a k eq_refl Hid Hm Hev Hp Ha Hk He) as H.
              rewrite Hq in H. simpl in H. exact H.
      * eapply (DPrint (JObj d)); eauto.
Qed.

(** ** Schedules: how one action changes the system *)

Lemma run_app w t1 t2 : run w (t1 ++ t2) = run (run w t1) t2.
Proof. unfold run. apply fold_left_app. Qed.

Lemma run_snoc w t a : run w (t ++ [a]) = step (run w t) a.
Proof. rewrite run_app. reflexivity. Qed.

Lemma run_cons w a t : run w (a :: t) = run (step w a) t.
Proof. reflexivity. Qed.

Lemma run_ind (P : sys -> Prop) w :
  P w -> (forall w' a, P w' -> P (step w' a)) -> forall t, P (run w t).
Proof.
  intros H0 Hstep t. revert w H0.
  induction t as [| a t IH]; intros w H0; [exact H0 |].
  rewrite run_cons. apply IH. by apply Hstep.
Qed.

Lemma step_recv_idle line w :
  reader w <> Running -> step_recv line w = w.
Proof. unfold step_recv. destruct (reader w); congruence. Qed.

Lemma step_recv_loaded line v w :
  reader w = Running ->
  json_loads line = Loaded v ->
  step_recv line w =
    mkSys (dispatch v (rpc w)).1
          (match (dispatch v (rpc w)).2 with inr _ => Running | inl e => Crashed e end)
          (tasks w) (delivered w).
Proof.
  intros Hrun Hload. unfold step_recv. rewrite Hrun.
  rewrite (reader_loop_loaded _ _ _ Hload). unfold bind, ret.
  destruct (dispatch v (rpc w)) as [s' [e | []]]; reflexivity.
Qed.

Lemma step_recv_not_loaded line w :
  reader w = Running ->
  (forall v, json_loads line <> Loaded v) ->
  rpc (step_recv line w) = rpc w
  /\ reader (step_recv line w) <> Running
  /\ tasks (step_recv line w) = tasks w
  /\ delivered (step_recv line w) = delivered w.
Proof.
  intros Hrun Hload. unfold step_recv, reader_loop. rewrite Hrun.
  destruct line as [| c line']; [by simpl |].
  destruct (json_loads (String c line')) as [v | |] eqn:E; [by destruct (Hload v) | |];
    by simpl.
Qed.

Lemma step_recv_tasks line w : tasks (step_recv line w) = tasks w.
Proof.
  unfold step_recv. destruct (reader w); try reflexivity.
  destruct (reader_loop line (rpc w)) as [[s' [e | []]] |]; reflexivity.
Qed.

Lemma step_recv_delivered line w : delivered (step_recv line w) = delivered w.
Proof.
  unfold step_recv. destruct (reader w); try reflexivity.
  destruct (reader_loop line (rpc w)) as [[s' [e | []]] |]; reflexivity.
Qed.

Lemma step_recv_stays_down line w :
  reader (step_recv line w) = Running -> reader w = Running.
Proof.
  destruct (reader w) eqn:E; [done | | |];
    rewrite step_recv_idle by congruence; congruence.
Qed.

Lemma queue_get_Some k s s' ev :
  queue_get k s = Some (s', ev) ->
  exists rest,
    event_queues s !! k = Some (ev :: rest)
    /\ s' = with_event_queues (<[k := rest]> (event_queues s)) s.
Proof.
  unfold queue_get. destruct (event_queues s !! k) as [[| ev' rest] |]; try done.
  intros [= <- <-]. by exists rest.
Qed.

Lemma same_calls_refl s : same_calls s s.
Proof. by repeat split. Qed.

Lemma step_wait_calls account_id w :
  same_calls (rpc w) (rpc (step_wait account_id w))
  /\ reader (step_wait account_id w) = reader w.
Proof.
  unfold step_wait, wait_for_event.
  destruct (to_key account_id) as [e | k]; [split; [apply same_calls_refl | done] |].
  destruct (event_queues (rpc w) !! k) as [queue |];
    [| split; [apply same_calls_refl | done]].
  destruct (queue_get k (rpc w)) as [[s' ev] |] eqn:E;
    [| split; [apply same_calls_refl | done]].
  apply queue_get_Some in E as (rest & _ & ->). by repeat split.
Qed.

Lemma step_resume_calls t w :
  same_calls (rpc w) (rpc (step_resume t w))
  /\ reader (step_resume t w) = reader w.
Proof.
  unfold step_resume.
  destruct (tasks w !! t) as [[fut | k | o] |];
    try (split; [apply same_calls_refl | done]).
  - destruct (futures (rpc w) !! fut) as [[resp |] |];
      split; try apply same_calls_refl; done.
  - destruct (queue_get k (rpc w)) as [[s' ev] |] eqn:E;
      [| split; [apply same_calls_refl | done]].
    apply queue_get_Some in E as (rest & _ & ->). by repeat split.
Qed.

Lemma step_call_rpc attr args kwargs w :
  rpc (step_call attr args kwargs w) =
    if truthy args && truthy kwargs
    then with_id (id (rpc w) + 1) (rpc w)
    else sent attr args kwargs (rpc w).
Proof.
  unfold step_call. destruct (truthy args && truthy kwargs) eqn:E.
  - by rewrite method_mixed.
  - by rewrite method_ok.
Qed.

Lemma step_call_reader attr args kwargs w :
  reader (step_call attr args kwargs w) = reader w.
Proof.
  unfold step_call. by destruct (method attr args kwargs (rpc w)) as [s' [e | fut]].
Qed.

(** ** The registry invariant *)

Lemma registry_ok_start : registry_ok start.
Proof. split; intros *; simpl; rewrite lookup_empty; done. Qed.

Lemma registry_ok_same s s' : same_calls s s' -> registry_ok s -> registry_ok s'.
Proof.
  intros (Hid & Hreq & Hfut) [H1 H2]. unfold registry_ok.
  rewrite Hid, Hreq, Hfut. by split.
Qed.

Lemma registry_ok_with_id s : registry_ok s -> registry_ok (with_id (id s + 1) s).
Proof.
  intros [H1 H2]. split; simpl; [| exact H2].
  intros k fut Hk. destruct (H1 k fut Hk) as [(r & -> & Hr) Hf].
  split; [exists r; split; [done | lia] | done].
Qed.

Lemma registry_ok_sent attr args kwargs s :
  registry_ok s -> registry_ok (sent attr args kwargs s).
Proof.
  intros [H1 H2]. split; simpl.
  - intros k fut. rewrite lookup_insert. case_decide as Hk.
    + intros [= <-]. subst k. split; [by eexists |].
      rewrite lookup_app_r by lia. by rewrite Nat.sub_diag.
    + intros Hreq. destruct (H1 k fut Hreq) as [(r & -> & Hr) Hf].
      split; [exists r; split; [done | lia] |].
      rewrite lookup_app_l; [done |]. by eapply lookup_lt_Some.
  - intros k1 k2 fut. rewrite !lookup_insert.
    repeat case_decide; subst; try done.
    + intros [= <-] Hreq. apply H1 in Hreq as [_ Hf].
      apply lookup_lt_Some in Hf. lia.
    + intros Hreq [= <-]. apply H1 in Hreq as [_ Hf].
      apply lookup_lt_Some in Hf. lia.
    + apply H2.
Qed.

Lemma registry_ok_dispatch v s :
  registry_ok s -> registry_ok (dispatch v s).1.
Proof.
  intros [H1 H2].
  destruct (dispatch_cases v s)
    as [e | d idv k fut -> Hid Hk Hreq Hfut | d idv k fut -> Hid Hk Hreq Hfut
        | d m p a k ev -> Hid Hm Hev Hp Ha Hk He | d m p a k -> Hid Hm Hev Hp Ha Hk He
        | d m -> Hid Hm Hev]; simpl; try done.
  - split; simpl.
    + intros k' fut'. rewrite lookup_delete. case_decide; [done |].
      intros Hreq'. destruct (H1 k' fut' Hreq') as [Hr Hf]. split; [done |].
      rewrite list_lookup_insert_ne; [done |].
      intros <-. by specialize (H2 _ _ _ Hreq Hreq').
    + intros k1 k2 fut'. rewrite !lookup_delete. repeat case_decide; try done.
      apply H2.
  - by apply H1 in Hreq as [_ Hf].
Qed.

Lemma registry_ok_step w a : registry_ok (rpc w) -> registry_ok (rpc (step w a)).
Proof.
  intros Hok. destruct a as [attr args kwargs | line | account_id | t]; simpl.
  - rewrite step_call_rpc. destruct (truthy args && truthy kwargs).
    + by apply registry_ok_with_id.
    + by apply registry_ok_sent.
  - destruct (reader w) eqn:Hrun; try (rewrite step_recv_idle by congruence; done).
    destruct (json_loads line) as [v | |] eqn:Hload.
    + rewrite (step_recv_loaded _ _ _ Hrun Hload); simpl.
      by apply registry_ok_dispatch.
    + destruct (step_recv_not_loaded line w Hrun) as [-> _]; [congruence | done].
    + destruct (step_recv_not_loaded line w Hrun) as [-> _]; [congruence | done].
  - eapply registry_ok_same; [apply step_wait_calls | done].
  - eapply registry_ok_same; [apply step_resume_calls | done].
Qed.

Lemma registry_ok_run t : registry_ok (rpc (run sys_start t)).
Proof.
  apply (run_ind (fun w => registry_ok (rpc w))).
  - apply registry_ok_start.
  - intros w a. apply registry_ok_step.
Qed.

Lemma step_resume_cases t w :
  step_resume t w = w
  \/ (exists fut response,
        tasks w !! t = Some (Awaiting fut)
        /\ futures (rpc w) !! fut = Some (Some response)
        /\ step_resume t w =
             mkSys (rpc w) (reader w)
                   (<[t := Finished (method_resume response)]> (tasks w)) (delivered w))
  \/ (exists k s' ev,
        tasks w !! t = Some (Waiting k)
        /\ queue_get k (rpc w) = Some (s', ev)
        /\ step_resume t w =
             mkSys s' (reader w) (<[t := Finished (Return ev)]> (tasks w))
                   (delivered w ++ [(k, ev)])).
Proof.
  unfold step_resume.
  destruct (tasks w !! t) as [[fut | k | o] |] eqn:Ht; try by left.
  - destruct (futures (rpc w) !! fut) as [[response |] |] eqn:Hf; try by left.
    right; left. by exists fut, response.
  - destruct (queue_get k (rpc w)) as [[s' ev] |] eqn:Hg; try by left.
    right; right. by exists k, s', ev.
Qed.

Lemma step_wait_cases account_id w :
  (exists x,
     step_wait account_id w = mkSys (rpc w) (reader w) (tasks w ++ [x]) (delivered w)
     /\ forall k, to_key account_id = inr k -> queue_get k (rpc w) = None)
  \/ (exists k s' ev,
        to_key account_id = inr k
        /\ queue_get k (rpc w) = Some (s', ev)
        /\ step_wait account_id w =
             mkSys s' (reader w) (tasks w ++ [Finished (Return ev)])
                   (delivered w ++ [(k, ev)])).
Proof.
  unfold step_wait, wait_for_event.
  destruct (to_key account_id) as [e | k].
  { left. eexists. split; [reflexivity | done]. }
  destruct (event_queues (rpc w) !! k) as [queue |] eqn:Hq.
  - destruct (queue_get k (rpc w)) as [[s' ev] |] eqn:Hg.
    + right. by exists k, s', ev.
    + left. eexists. split; [reflexivity |]. by intros ? [= <-].
  - left. eexists. split; [reflexivity |]. intros ? [= <-].
    unfold queue_get. by rewrite Hq.
Qed.

(** ** Following one call through a schedule *)

Lemma tracked_sent attr args kwargs w :
  truthy args && truthy kwargs = false ->
  tracked (id (rpc w) + 1) (length (futures (rpc w))) (length (tasks w))
          (step w (ACall attr args kwargs)) None.
Proof.
  intros Hmix. simpl. unfold step_call. rewrite (method_ok _ _ _ _ Hmix).
  split; simpl; [lia |]. split; [| split].
  - rewrite lookup_app_r by lia. by rewrite Nat.sub_diag.
  - apply lookup_insert_eq.
  - rewrite lookup_app_r by lia. by rewrite Nat.sub_diag.
Qed.

Lemma lookup_task_app (l : list task) (x : task) c y :
  l !! c = Some y -> (l ++ [x]) !! c = Some y.
Proof. intros H. rewrite lookup_app_l; [done |]. by eapply lookup_lt_Some. Qed.

Lemma tracked_same r fut c w w' resp :
  same_calls (rpc w) (rpc w') ->
  (forall y, tasks w !! c = Some y -> tasks w' !! c = Some y) ->
  tracked r fut c w resp -> tracked r fut c w' resp.
Proof.
  intros (Hid & Hreq & Hfut) Ht. unfold tracked.
  rewrite Hid, Hreq, Hfut. intros [Hr Hst]. split; [done |].
  destruct resp as [v |].
  - destruct Hst as (? & ? & [? | ?]); repeat split; auto.
  - destruct Hst as (? & ? & ?); repeat split; auto.
Qed.

(** One action keeps the call tracked; its status changes only when the
    reader loop reads a response carrying its id. *)
Lemma tracked_step r fut c w resp a :
  registry_ok (rpc w) ->
  tracked r fut c w resp ->
  exists resp',
    tracked r fut c (step w a) resp'
    /\ (resp' = resp
        \/ (resp = None /\ exists line v,
              a = ARecv line /\ response_for r line v /\ resp' = Some v)).
Proof.
  intros [Hreg1 Hreg2] Htr.
  destruct a as [attr args kwargs | line | account_id | t].
  - (* a call: a fresh key and a fresh future *)
    exists resp. split; [| by left].
    destruct Htr as [Hr Hst]. split.
    { simpl. rewrite step_call_rpc.
      destruct (truthy args && truthy kwargs); simpl; lia. }
    simpl. unfold step_call.
    destruct (truthy args && truthy kwargs) eqn:Hmix.
    + rewrite (method_mixed _ _ _ _ Hmix). simpl.
      destruct resp as [v |].
      * destruct Hst as (? & ? & [? | ?]); repeat split; try done;
          [left | right]; by apply lookup_task_app.
      * destruct Hst as (? & ? & ?); repeat split; try done.
        by apply lookup_task_app.
    + rewrite (method_ok _ _ _ _ Hmix). simpl.
      destruct resp as [v |].
      * destruct Hst as (Hreq & Hfut & Htask). split; [| split].
        -- rewrite lookup_insert_ne; [done |]. intros [= E]. lia.
        -- rewrite lookup_app_l; [done |]. by eapply lookup_lt_Some.
        -- destruct Htask; [left | right]; by apply lookup_task_app.
      * destruct Hst as (Htask & Hreq & Hfut). split; [| split].
        -- by apply lookup_task_app.
        -- rewrite lookup_insert_ne; [done |]. intros [= E]. lia.
        -- rewrite lookup_app_l; [done |]. by eapply lookup_lt_Some.
  - (* the reader loop *)
    simpl. destruct (reader w) eqn:Hrun;
      try (rewrite step_recv_idle by congruence; exists resp; split; [done | by left]).
    destruct (json_loads line) as [v | |] eqn:Hload; cycle 1.
    { exists resp. split; [| by left].
      destruct (step_recv_not_loaded line w Hrun) as (Hrpc & _ & Ht & _);
        [congruence |].
      eapply tracked_same; [| | exact Htr]; [| by rewrite Ht].
      rewrite Hrpc. apply same_calls_refl. }
    { exists resp. split; [| by left].
      destruct (step_recv_not_loaded line w Hrun) as (Hrpc & _ & Ht & _);
        [congruence |].
      eapply tracked_same; [| | exact Htr]; [| by rewrite Ht].
      rewrite Hrpc. apply same_calls_refl. }
    rewrite (step_recv_loaded _ _ _ Hrun Hload).
    destruct (dispatch_cases v (rpc w))
      as [e | d idv k fut' -> Hid Hk Hreq Hfut | d idv k fut' -> Hid Hk Hreq Hfut
          | d m p a k ev -> Hid Hm Hev Hp Ha Hk He | d m p a k -> Hid Hm Hev Hp Ha Hk He
          | d m -> Hid Hm Hev]; simpl;
      try (exists resp; split; [exact Htr | by left]).
    + (* a response is resolved *)
      destruct Htr as [Hr Hst]. destruct resp as [v |].
      * exists (Some v). split; [| by left]. split; [done |]. simpl.
        destruct Hst as (Hreq' & Hfut' & Htask). split; [| split; [| done]].
        -- rewrite lookup_delete. by case_decide.
        -- rewrite list_lookup_insert_ne; [done |]. congruence.
      * destruct Hst as (Htask & Hreq' & Hfut').
        destruct (decide (k = KInt r)) as [-> | Hne].
        -- assert (fut' = fut) as -> by congruence.
           exists (Some (JObj d)). split.
           ++ split; [done |]. simpl. split; [| split; [| by left]].
              ** apply lookup_delete_eq.
              ** apply list_lookup_insert_eq. by eapply lookup_lt_Some.
           ++ right. split; [done |]. exists line, (JObj d).
              split; [done |]. split; [| done]. by exists d, idv.
        -- exists None. split; [| by left]. split; [done |]. simpl.
           split; [done |]. split.
           ++ by rewrite lookup_delete_ne.
           ++ destruct (decide (fut' = fut)) as [-> | Hf];
                [| by rewrite list_lookup_insert_ne].
              (* the same future under two keys: only if it is not pending *)
              rewrite list_lookup_insert_eq by (by eapply lookup_lt_Some).
              exfalso. apply Hne. by apply (Hreg2 _ _ fut).
    + (* set_result on a future that is not pending: excluded *)
      by apply Hreg1 in Hreq as [_ Hf].
  - (* wait_for_event touches the queues only *)
    exists resp. split; [| by left]. simpl.
    eapply tracked_same; [apply step_wait_calls | | exact Htr].
    intros y Hy.
    destruct (step_wait_cases account_id w) as [(x & -> & _) | (k & s' & ev & _ & _ & ->)];
      simpl; by apply lookup_task_app.
  - (* a task is resumed *)
    exists resp. split; [| by left]. simpl.
    destruct (step_resume_cases t w)
      as [-> | [(fut' & response & Ht & Hf & ->) | (k & s' & ev & Ht & Hg & ->)]];
      [done | |].
    + destruct Htr as [Hr Hst]. split; [done |]. simpl.
      destruct (decide (t = c)) as [-> | Hne].
      * destruct resp as [v |].
        -- destruct Hst as (Hreq & Hfut & [Htask | Htask]); [| congruence].
           assert (fut' = fut) as -> by congruence.
           assert (response = v) as -> by congruence.
           repeat split; try done. right.
           apply list_lookup_insert_eq. by eapply lookup_lt_Some.
        -- destruct Hst as (Htask & Hreq & Hfut). congruence.
      * rewrite list_lookup_insert_ne by done. exact Hst.
    + apply queue_get_Some in Hg as (rest & Hq & ->).
      destruct Htr as [Hr Hst]. split; [done |]. simpl.
      destruct (decide (t = c)) as [-> | Hne].
      * destruct resp as [v |].
        -- destruct Hst as (_ & _ & [Htask | Htask]); congruence.
        -- destruct Hst as (Htask & _). congruence.
      * rewrite list_lookup_insert_ne by done. exact Hst.
Qed.

(** A response carrying the call's id that the running loop survives
    finds the call pending and resolves it with that response. *)
Lemma tracked_response r fut c w resp line v :
  tracked r fut c w resp ->
  response_for r line v ->
  reader (step w (ARecv line)) = Running ->
  resp = None /\ tracked r fut c (step w (ARecv line)) (Some v).
Proof.
  intros [Hr Hst] (d & idv & Hload & -> & Hid & Hk) Hafter. simpl in *.
  pose proof (step_recv_stays_down _ _ Hafter) as Hrun.
  rewrite (step_recv_loaded _ _ _ Hrun Hload) in *. simpl in Hafter.
  destruct resp as [v |].
  - destruct Hst as (Hreq & _).
    rewrite (dispatch_unknown_id _ _ _ _ Hid Hk Hreq) in Hafter. done.
  - destruct Hst as (Htask & Hreq & Hfut). split; [done |].
    rewrite (dispatch_response _ _ _ _ _ Hid Hk Hreq Hfut). simpl.
    split; [done |]. simpl. split; [| split; [| by left]].
    + apply lookup_delete_eq.
    + apply list_lookup_insert_eq. by eapply lookup_lt_Some.
Qed.

Lemma tracked_resolved_step r fut c w v a :
  registry_ok (rpc w) ->
  tracked r fut c w (Some v) -> tracked r fut c (step w a) (Some v).
Proof.
  intros Hreg Htr.
  destruct (tracked_step r fut c w (Some v) a Hreg Htr)
    as (resp' & Htr' & [-> | [[=] _]]).
  exact Htr'.
Qed.

Lemma tracked_resolved_run r fut c t v :
  forall w, registry_ok (rpc w) ->
  tracked r fut c w (Some v) -> tracked r fut c (run w t) (Some v).
Proof.
  induction t as [| a t IH]; intros w Hreg Htr; [done |].
  rewrite run_cons. apply IH.
  - by apply registry_ok_step.
  - by apply tracked_resolved_step.
Qed.

Lemma tracked_resolved_resume r fut c w v :
  tracked r fut c w (Some v) ->
  tasks (step w (AResume c)) !! c = Some (Finished (method_resume v)).
Proof.
  intros (_ & _ & Hfut & Htask). simpl. unfold step_resume.
  destruct Htask as [Htask | Htask]; rewrite Htask; [| done].
  rewrite Hfut. simpl. apply list_lookup_insert_eq.
  by eapply lookup_lt_Some.
Qed.

Lemma finished_step c o w a :
  tasks w !! c = Some (Finished o) -> tasks (step w a) !! c = Some (Finished o).
Proof.
  intros Hc. destruct a as [attr args kwargs | line | account_id | t]; simpl.
  - unfold step_call.
    destruct (method attr args kwargs (rpc w)) as [s' [e | fut]]; simpl;
      by apply lookup_task_app.
  - by rewrite step_recv_tasks.
  - destruct (step_wait_cases account_id w)
      as [(x & -> & _) | (k & s' & ev & _ & _ & ->)]; simpl;
      by apply lookup_task_app.
  - destruct (step_resume_cases t w)
      as [-> | [(fut' & response & Ht & Hf & ->) | (k & s' & ev & Ht & Hg & ->)]];
      [done | |]; simpl;
      (destruct (decide (t = c)) as [-> | Hne];
         [congruence | by rewrite list_lookup_insert_ne]).
Qed.

Lemma finished_run c o t :
  forall w, tasks w !! c = Some (Finished o) -> tasks (run w t) !! c = Some (Finished o).
Proof.
  induction t as [| a t IH]; intros w Hc; [done |].
  rewrite run_cons. apply IH. by apply finished_step.
Qed.

Lemma id_step w a : id (rpc w) <= id (rpc (step w a)).
Proof.
  destruct a as [attr args kwargs | line | account_id | t]; simpl.
  - rewrite step_call_rpc. destruct (truthy args && truthy kwargs); simpl; lia.
  - destruct (reader w) eqn:Hrun; try (rewrite step_recv_idle by congruence; lia).
    destruct (json_loads line) as [v | |] eqn:Hload.
    + rewrite (step_recv_loaded _ _ _ Hrun Hload); simpl.
      destruct (dispatch_cases v (rpc w)); simpl; lia.
    + destruct (step_recv_not_loaded line w Hrun) as [-> _]; [congruence | lia].
    + destruct (step_recv_not_loaded line w Hrun) as [-> _]; [congruence | lia].
  - destruct (step_wait_calls account_id w) as [(-> & _) _]. lia.
  - destruct (step_resume_calls t w) as [(-> & _) _]. lia.
Qed.

Lemma id_run t : forall w, id (rpc w) <= id (rpc (run w t)).
Proof.
  induction t as [| a t IH]; intros w; [simpl; lia |].
  rewrite run_cons. pose proof (id_step w a). pose proof (IH (step w a)). lia.
Qed.

Lemma tracked_run r fut c t :
  forall w resp0,
    registry_ok (rpc w) ->
    tracked r fut c w resp0 ->
    exists resp,
      tracked r fut c (run w t) resp
      /\ (resp = resp0
          \/ exists line v, In (ARecv line) t /\ response_for r line v /\ resp = Some v).
Proof.
  induction t as [| a t IH]; intros w resp0 Hreg Htr.
  { exists resp0. split; [done | by left]. }
  destruct (tracked_step r fut c w resp0 a Hreg Htr) as (resp1 & Htr1 & Hch1).
  destruct (IH (step w a) resp1 (registry_ok_step _ _ Hreg) Htr1)
    as (resp & Htr' & Hch).
  exists resp. split; [exact Htr' |].
  destruct Hch as [-> | (line & v & Hin & Hresp & ->)].
  - destruct Hch1 as [-> | (_ & line & v & -> & Hresp & ->)]; [by left |].
    right. exists line, v. split; [by left | done].
  - right. exists line, v. split; [by right | done].
Qed.

(** C1.  A call sent at any point of any schedule is given the request id
    [r] (the counter after its increment), and its request line carries
    [r].  Whatever else is sent or arrives, in whatever order: (i) if the
    call finishes, it does so with a response line that arrived after the
    send and whose [id] is [r], and its future holds exactly that decoded
    object; (ii) a response line with [id] equal to [r] that the running
    reader loop reads resolves the call's future with exactly that object,
    and the call, once resumed, finishes with what that object says;
    (iii) no later call is given the same id; (iv) the first response
    line with [id] equal to [r] does not stop a running reader loop. *)
Theorem C1_correlation :
  forall (t1 : list action) (attr : string) (args : list json) (kwargs : dict)
         (t2 : list action),
    truthy args && truthy kwargs = false ->
    let w1 := run sys_start t1 in
    let r := id (rpc w1) + 1 in
    let fut := length (futures (rpc w1)) in
    let c := length (tasks w1) in
    let w := run sys_start (t1 ++ ACall attr args kwargs :: t2) in
    stdin (rpc (step w1 (ACall attr args kwargs))) =
      stdin (rpc w1) ++
        [json_dumps (JObj [("jsonrpc", JStr "2.0"); ("method", JStr attr);
                           ("params", if truthy kwargs then JObj kwargs else JArr args);
                           ("id", JInt r)]) +:+ nl]
    /\ (forall o,
          tasks w !! c = Some (Finished o) ->
          exists line v,
            In (ARecv line) t2 /\ response_for r line v
            /\ futures (rpc w) !! fut = Some (Some v)
            /\ o = method_resume v)
    /\ (forall t2a line t2b v,
          t2 = t2a ++ ARecv line :: t2b ->
          response_for r line v ->
          reader (run sys_start (t1 ++ ACall attr args kwargs :: t2a ++ [ARecv line]))
            = Running ->
          futures (rpc w) !! fut = Some (Some v)
          /\ (In (AResume c) t2b ->
              tasks w !! c = Some (Finished (method_resume v))))
    /\ (forall t2a attr' args' kwargs' t2b,
          t2 = t2a ++ ACall attr' args' kwargs' :: t2b ->
          id (rpc (run sys_start (t1 ++ ACall attr args kwargs :: t2a))) + 1 <> r)
    /\ (forall t2a line t2b v,
          t2 = t2a ++ ARecv line :: t2b ->
          response_for r line v ->
          (forall line' v', In (ARecv line') t2a -> ~ response_for r line' v') ->
          reader (run sys_start (t1 ++ ACall attr args kwargs :: t2a)) = Running ->
          reader (run sys_start (t1 ++ ACall attr args kwargs :: t2a ++ [ARecv line]))
            = Running).
Proof.
  intros t1 attr args kwargs t2 Hmix w1 r fut c w.
  set (w0 := step w1 (ACall attr args kwargs)).
  assert (Hw : forall t, run sys_start (t1 ++ ACall attr args kwargs :: t) = run w0 t).
  { intros t. rewrite run_app. reflexivity. }
  assert (Hreg0 : registry_ok (rpc w0)).
  { unfold w0, w1. rewrite <- run_snoc. apply registry_ok_run. }
  assert (Htr0 : tracked r fut c w0 None) by (by apply tracked_sent).
  split; [| split; [| split; [| split]]].
  - unfold w0. simpl. unfold step_call. rewrite (method_ok _ _ _ _ Hmix). reflexivity.
  - intros o Ho. unfold w in Ho |- *. rewrite Hw in Ho |- *.
    destruct (tracked_run r fut c t2 w0 None Hreg0 Htr0)
      as (resp & [Hr Hst] & Hch).
    destruct Hch as [-> | (line & v & Hin & Hresp & ->)].
    + destruct Hst as (Htask & _). congruence.
    + destruct Hst as (_ & Hfut & [Htask | Htask]); [congruence |].
      exists line, v. repeat split; try done. congruence.
  - intros t2a line t2b v -> Hresp Hrun.
    unfold w. rewrite Hw in Hrun |- *. rewrite run_snoc in Hrun.
    rewrite run_app, run_cons.
    destruct (tracked_run r fut c t2a w0 None Hreg0 Htr0) as (resp & Htra & _).
    assert (Hrega : registry_ok (rpc (run w0 t2a))).
    { apply (run_ind (fun w' => registry_ok (rpc w'))); [done |].
      intros w' a. apply registry_ok_step. }
    destruct (tracked_response _ _ _ _ _ _ _ Htra Hresp Hrun) as [_ Htrb].
    pose proof (registry_ok_step _ (ARecv line) Hrega) as Hregb.
    split.
    + by destruct (tracked_resolved_run r fut c t2b v _ Hregb Htrb) as (_ & _ & Hfut & _).
    + intros Hin. apply in_split in Hin as (x & y & ->).
      rewrite run_app, run_cons. apply finished_run.
      apply (tracked_resolved_resume r fut).
      by apply tracked_resolved_run.
  - intros t2a attr' args' kwargs' t2b -> . rewrite Hw.
    pose proof (id_run t2a w0) as Hmono.
    destruct Htr0 as [Hr _]. lia.
  - intros t2a line t2b v -> Hresp Hfresh Hrun.
    rewrite Hw in Hrun |- *. rewrite run_snoc.
    destruct (tracked_run r fut c t2a w0 None Hreg0 Htr0) as (resp & Htra & Hch).
    destruct Hch as [-> | (line' & v' & Hin & Hresp' & _)];
      [| by destruct (Hfresh line' v' Hin)].
    destruct Htra as (_ & _ & Hreq & Hfut).
    destruct Hresp as (d & idv & Hload & -> & Hid & Hk).
    simpl. rewrite (step_recv_loaded _ _ _ Hrun Hload).
    by rewrite (dispatch_response _ _ _ _ _ Hid Hk Hreq Hfut).
Qed.

Lemma C1_witness :
  tasks (run sys_start
           ([ACall "get_info" [] []]
              ++ ACall "get_account_info" [] [("account_id", JInt 5)] :: reversed_answers))
    !! 1%nat
  = Some (Finished (Return (JStr "two"))).
Proof.
  pose proof (C1_correlation [ACall "get_info" [] []] "get_account_info" []
                [("account_id", JInt 5)] reversed_answers eq_refl) as H.
  cbv zeta in H. destruct H as (_ & _ & H & _).
  destruct (H [ACall "get_fresh_msgs" [JInt 3] []; ARecv (result_line 3 "three")]
              (result_line 2 "two")
              [ARecv (result_line 1 "one"); AResume 1%nat; AResume 0%nat; AResume 2%nat]
              (JObj [("id", JInt 2); ("result", JStr "two")]) eq_refl) as [_ H2].
  - exists [("id", JInt 2); ("result", JStr "two")], (JInt 2).
    repeat split; vm_compute; reflexivity.
  - vm_compute. reflexivity.
  - apply H2. vm_compute. tauto.
Defined.

(** ** At most one resolution *)

Lemma future_done_step fut v w a :
  futures (rpc w) !! fut = Some (Some v) ->
  futures (rpc (step w a)) !! fut = Some (Some v).
Proof.
  intros Hf. destruct a as [attr args kwargs | line | account_id | t]; simpl.
  - rewrite step_call_rpc. destruct (truthy args && truthy kwargs); simpl; [done |].
    rewrite lookup_app_l; [done |]. by eapply lookup_lt_Some.
  - destruct (reader w) eqn:Hrun; try (by rewrite step_recv_idle by congruence).
    destruct (json_loads line) as [v' | |] eqn:Hload.
    + rewrite (step_recv_loaded _ _ _ Hrun Hload); simpl.
      destruct (dispatch_cases v' (rpc w))
        as [e | d idv k fut' -> Hid Hk Hreq Hfut | d idv k fut' -> Hid Hk Hreq Hfut
            | d m p a k ev -> Hid Hm Hev Hp Ha Hk He | d m p a k -> Hid Hm Hev Hp Ha Hk He
            | d m -> Hid Hm Hev]; simpl; try done.
      rewrite list_lookup_insert_ne; [done |]. congruence.
    + by destruct (step_recv_not_loaded line w Hrun) as [-> _]; [congruence |].
    + by destruct (step_recv_not_loaded line w Hrun) as [-> _]; [congruence |].
  - by destruct (step_wait_calls account_id w) as [(_ & _ & ->) _].
  - by destruct (step_resume_calls t w) as [(_ & _ & ->) _].
Qed.

Lemma future_done_run fut v t :
  forall w, futures (rpc w) !! fut = Some (Some v) ->
            futures (rpc (run w t)) !! fut = Some (Some v).
Proof.
  induction t as [| a t IH]; intros w Hf; [done |].
  rewrite run_cons. apply IH. by apply future_done_step.
Qed.

Lemma retired_step k w a : retired k w -> retired k (step w a).
Proof.
  intros (Hreq & r & -> & Hr). split.
  - destruct a as [attr args kwargs | line | account_id | t]; simpl.
    + rewrite step_call_rpc. destruct (truthy args && truthy kwargs); simpl; [done |].
      rewrite lookup_insert_ne; [done |]. intros [= E]. lia.
    + destruct (reader w) eqn:Hrun; try (by rewrite step_recv_idle by congruence).
      destruct (json_loads line) as [v' | |] eqn:Hload.
      * rewrite (step_recv_loaded _ _ _ Hrun Hload); simpl.
        destruct (dispatch_cases v' (rpc w)); simpl; try done;
          rewrite lookup_delete; by case_decide.
      * by destruct (step_recv_not_loaded line w Hrun) as [-> _]; [congruence |].
      * by destruct (step_recv_not_loaded line w Hrun) as [-> _]; [congruence |].
    + by destruct (step_wait_calls account_id w) as [(_ & -> & _) _].
    + by destruct (step_resume_calls t w) as [(_ & -> & _) _].
  - exists r. split; [done |]. pose proof (id_step w a). lia.
Qed.

Lemma retired_run k t : forall w, retired k w -> retired k (run w t).
Proof.
  induction t as [| a t IH]; intros w Hret; [done |].
  rewrite run_cons. apply IH. by apply retired_step.
Qed.

(** C4.  (a) A future that has its result keeps it along every schedule:
    no pending-call entry is resolved a second time.  (b) When the reader
    loop reads a response and survives, the entry was registered and
    pending, and in the same step it leaves the registry and its future
    gets that response; a later line with the same id, read while the
    loop still runs, finds no entry: the loop ends with [KeyError] on that
    id and no future changes. *)
Theorem C4_at_most_once_resolution :
  (forall (t t' : list action) (fut : nat) (v : json),
      futures (rpc (run sys_start t)) !! fut = Some (Some v) ->
      futures (rpc (run sys_start (t ++ t'))) !! fut = Some (Some v))
  /\
  (forall (t1 : list action) (line1 : string) (t2 : list action) (line2 : string)
          (v1 v2 : json) (k : pykey),
      response_key k line1 v1 ->
      response_key k line2 v2 ->
      let w0 := run sys_start t1 in
      let w1 := step w0 (ARecv line1) in
      let w2 := run w1 t2 in
      let w3 := step w2 (ARecv line2) in
      reader w1 = Running ->
      reader w2 = Running ->
      (exists fut,
          request_events (rpc w0) !! k = Some fut
          /\ futures (rpc w0) !! fut = Some None
          /\ request_events (rpc w1) !! k = None
          /\ futures (rpc w1) !! fut = Some (Some v1)
          /\ futures (rpc w3) !! fut = Some (Some v1))
      /\ request_events (rpc w2) !! k = None
      /\ (exists idv, reader w3 = Crashed (KeyError idv))
      /\ futures (rpc w3) = futures (rpc w2)
      /\ tasks w3 = tasks w2).
Proof.
  split.
  { intros t t' fut v Hf. rewrite run_app. by apply future_done_run. }
  intros t1 line1 t2 line2 v1 v2 k (d1 & i1 & Hl1 & -> & Hid1 & Hk1)
         (d2 & i2 & Hl2 & -> & Hid2 & Hk2) w0 w1 w2 w3 Hrun1 Hrun2.
  pose proof (registry_ok_run t1) as [Hreg _]. fold w0 in Hreg.
  pose proof (step_recv_stays_down _ _ Hrun1) as Hrun0.
  assert (E1 : w1 = step_recv line1 w0) by reflexivity.
  rewrite (step_recv_loaded _ _ _ Hrun0 Hl1) in E1.
  destruct (request_events (rpc w0) !! k) as [fut |] eqn:Hreq.
  2: { rewrite (dispatch_unknown_id _ _ _ _ Hid1 Hk1 Hreq) in E1.
       rewrite E1 in Hrun1. done. }
  destruct (Hreg k fut Hreq) as [(r & -> & Hr) Hfut].
  rewrite (dispatch_response _ _ _ _ _ Hid1 Hk1 Hreq Hfut) in E1. simpl in E1.
  assert (Hret1 : retired (KInt r) w1).
  { rewrite E1. split; simpl; [apply lookup_delete_eq | by exists r]. }
  assert (Hdone1 : futures (rpc w1) !! fut = Some (Some (JObj d1))).
  { rewrite E1. simpl. apply list_lookup_insert_eq. by eapply lookup_lt_Some. }
  destruct (retired_run _ t2 _ Hret1) as [Hreq2 _]. fold w2 in Hreq2.
  assert (E3 : w3 = step_recv line2 w2) by reflexivity.
  rewrite (step_recv_loaded _ _ _ Hrun2 Hl2) in E3.
  rewrite (dispatch_unknown_id _ _ _ _ Hid2 Hk2 Hreq2) in E3. simpl in E3.
  split; [| split; [done | split; [| split]]].
  - exists fut. split; [done |]. split; [done |]. split; [apply Hret1 |].
    split; [done |]. rewrite E3. simpl. by apply future_done_run.
  - exists i2. by rewrite E3.
  - by rewrite E3.
  - by rewrite E3.
Qed.

Lemma C4_witness :
  exists idv,
    reader (step (run (step (run sys_start [ACall "get_info" [] []])
                            (ARecv (result_line 1 "first")))
                      [ACall "get_info" [] []])
                 (ARecv (result_line 1 "second")))
    = Crashed (KeyError idv).
Proof.
  destruct C4_at_most_once_resolution as [_ H].
  destruct (H [ACall "get_info" [] []] (result_line 1 "first")
              [ACall "get_info" [] []] (result_line 1 "second")
              (JObj [("id", JInt 1); ("result", JStr "first")])
              (JObj [("id", JInt 1); ("result", JStr "second")])
              (KInt 1)) as (_ & _ & Hcrash & _).
  - exists [("id", JInt 1); ("result", JStr "first")], (JInt 1).
    repeat split; vm_compute; reflexivity.
  - exists [("id", JInt 1); ("result", JStr "second")], (JInt 1).
    repeat split; vm_compute; reflexivity.
  - vm_compute. reflexivity.
  - vm_compute. reflexivity.
  - exact Hcrash.
Defined.

(** ** Events on the wire *)

Lemma wire_event_Some line k ev :
  wire_event line = Some (k, ev) ->
  exists d m p a,
    json_loads line = Loaded (JObj d)
    /\ dict_get "id" d = None
    /\ dict_get "method" d = Some m
    /\ py_eq_str m "event" = true
    /\ dict_get "params" d = Some (JObj p)
    /\ dict_get "contextId" p = Some a
    /\ to_key a = inr k
    /\ dict_get "event" p = Some ev.
Proof.
  unfold wire_event.
  destruct (json_loads line) as [[| | | | | d] | |]; try done.
  destruct (dict_get "id" d) eqn:Hid; try done.
  destruct (dict_get "method" d) as [m |] eqn:Hm; try done.
  destruct (dict_get "params" d) as [[| | | | | p] |] eqn:Hp; try done.
  destruct (py_eq_str m "event") eqn:Hev; try done.
  destruct (dict_get "contextId" p) as [a |] eqn:Ha; try done.
  destruct (dict_get "event" p) as [ev' |] eqn:He; try done.
  destruct (to_key a) as [e | k'] eqn:Hk; try done.
  intros [= <- <-]. by exists d, m, p, a.
Qed.

Lemma dispatch_event d m p a k ev s :
  dict_get "id" d = None ->
  dict_get "method" d = Some m ->
  py_eq_str m "event" = true ->
  dict_get "params" d = Some (JObj p) ->
  dict_get "contextId" p = Some a ->
  to_key a = inr k ->
  dict_get "event" p = Some ev ->
  dispatch (JObj d) s =
    (with_event_queues (<[k := queue_of k s ++ [ev]]> (event_queues s)) s, inr tt).
Proof.
  intros Hid Hm Hev Hp Ha Hk He.
  unfold dispatch. run_m. rewrite Hid. run_m. rewrite Hm. run_m.
  rewrite Hev. run_m. rewrite Hp. run_m. rewrite Ha. run_m.
  rewrite Hk. run_m. unfold queue_of.
  destruct (event_queues s !! k) as [queue |] eqn:Hq.
  - rewrite decide_False by congruence. run_m. rewrite He. run_m.
    by rewrite Hq.
  - rewrite decide_True by done. run_m. rewrite He. run_m.
    rewrite lookup_insert_eq. simpl. unfold with_event_queues; simpl.
    by rewrite insert_insert_eq.
Qed.

(** The reader loop on an event line. *)
Lemma step_recv_event line k ev w :
  reader w = Running ->
  wire_event line = Some (k, ev) ->
  step w (ARecv line) =
    mkSys (with_event_queues
             (<[k := queue_of k (rpc w) ++ [ev]]> (event_queues (rpc w))) (rpc w))
          Running (tasks w) (delivered w).
Proof.
  intros Hrun Hev.
  apply wire_event_Some in Hev as (d & m & p & a & Hload & Hid & Hm & Hev & Hp & Ha & Hk & He).
  simpl. rewrite (step_recv_loaded _ _ _ Hrun Hload).
  by rewrite (dispatch_event d m p a k ev _ Hid Hm Hev Hp Ha Hk He).
Qed.

(** ** First in, first out, per account *)

Lemma wire_events_snoc k t a :
  wire_events k (t ++ [a]) = wire_events k t ++ wire_events k [a].
Proof. unfold wire_events. apply omap_app. Qed.

Lemma queue_of_insert k k0 l s :
  queue_of k (with_event_queues (<[k0 := l]> (event_queues s)) s) =
    if decide (k0 = k) then l else queue_of k s.
Proof.
  unfold queue_of; simpl. rewrite lookup_insert.
  by case_decide.
Qed.

(** The loop has stopped, or stops here: what is on the wire from now on
    is never queued. *)
Lemma fifo_stopped k t w w' a :
  delivered_to k w' = delivered_to k w ->
  queue_of k (rpc w') = queue_of k (rpc w) ->
  reader w' <> Running ->
  fifo_inv k t w -> fifo_inv k (t ++ [a]) w'.
Proof.
  intros Hd Hq Hstop (rest & Heq & _).
  exists (rest ++ wire_events k [a]). split; [| done].
  rewrite Hd, Hq, wire_events_snoc, <- Heq. by rewrite <- !app_assoc.
Qed.

(** An action that neither queues nor hands out an event of account [k]. *)
Lemma fifo_quiet k t w w' a :
  delivered_to k w' = delivered_to k w ->
  queue_of k (rpc w') = queue_of k (rpc w) ->
  wire_events k [a] = [] ->
  (reader w' = Running -> reader w = Running) ->
  fifo_inv k t w -> fifo_inv k (t ++ [a]) w'.
Proof.
  intros Hd Hq Hwire Hrun (rest & Heq & Hrest).
  exists rest. split; [| auto].
  rewrite Hd, Hq, wire_events_snoc, Hwire, app_nil_r. done.
Qed.

(** A caller takes the head of the queue of account [k0]. *)
Lemma fifo_pop k k0 t w a s' ev tasks' :
  wire_events k [a] = [] ->
  queue_get k0 (rpc w) = Some (s', ev) ->
  fifo_inv k t w ->
  fifo_inv k (t ++ [a]) (mkSys s' (reader w) tasks' (delivered w ++ [(k0, ev)])).
Proof.
  intros Hwire Hg (rest & Heq & Hrest).
  apply queue_get_Some in Hg as (more & Hq & ->).
  exists rest. split; [| auto]. simpl.
  rewrite wire_events_snoc, Hwire, app_nil_r, <- Heq.
  unfold delivered_to; simpl. rewrite omap_app; simpl.
  rewrite queue_of_insert. unfold pick at 2; simpl.
  case_decide as Hk.
  - subst k0. unfold queue_of. rewrite Hq; simpl.
    by rewrite <- !app_assoc.
  - by rewrite app_nil_r.
Qed.

Lemma wire_events_not_recv k a :
  (forall line, a <> ARecv line) -> wire_events k [a] = [].
Proof. intros H. destruct a; try done. by destruct (H line). Qed.

Lemma wire_events_recv_None k line :
  wire_event line = None -> wire_events k [ARecv line] = [].
Proof. intros H. unfold wire_events; simpl. by rewrite H. Qed.

Lemma wire_event_not_loaded line :
  (forall v, json_loads line <> Loaded v) -> wire_event line = None.
Proof.
  intros H. unfold wire_event. destruct (json_loads line) as [v | |]; try done.
  by destruct (H v).
Qed.

Lemma fifo_step k t w a :
  fifo_inv k t w -> fifo_inv k (t ++ [a]) (step w a).
Proof.
  intros Hinv.
  destruct a as [attr args kwargs | line | account_id | c].
  - (* a call leaves queues and log alone *)
    apply (fifo_quiet k t w); try done.
    + simpl. unfold step_call, delivered_to.
      by destruct (method attr args kwargs (rpc w)) as [s' [e | fut]].
    + simpl. rewrite step_call_rpc.
      by destruct (truthy args && truthy kwargs).
    + simpl. by rewrite step_call_reader.
  - (* the reader loop *)
    simpl. destruct (reader w) eqn:Hrun; cycle 1.
    { rewrite step_recv_idle by congruence. apply (fifo_stopped k t w); try done.
      congruence. }
    { rewrite step_recv_idle by congruence. apply (fifo_stopped k t w); try done.
      congruence. }
    { rewrite step_recv_idle by congruence. apply (fifo_stopped k t w); try done.
      congruence. }
    destruct (json_loads line) as [v | |] eqn:Hload; cycle 1.
    { destruct (step_recv_not_loaded line w Hrun) as (Hrpc & Hstop & _ & Hd);
        [congruence |].
      apply (fifo_stopped k t w); try done.
      - unfold delivered_to. by rewrite Hd.
      - by rewrite Hrpc. }
    { destruct (step_recv_not_loaded line w Hrun) as (Hrpc & Hstop & _ & Hd);
        [congruence |].
      apply (fifo_stopped k t w); try done.
      - unfold delivered_to. by rewrite Hd.
      - by rewrite Hrpc. }
    pose proof (step_recv_loaded _ _ _ Hrun Hload) as E.
    destruct (dispatch_cases v (rpc w))
      as [e | d idv k' fut' -> Hid Hk Hreq Hfut | d idv k' fut' -> Hid Hk Hreq Hfut
          | d m p a k' ev -> Hid Hm Hev Hp Ha Hk He | d m p a k' -> Hid Hm Hev Hp Ha Hk He
          | d m -> Hid Hm Hev]; simpl in E; rewrite E.
    + by apply (fifo_stopped k t w).
    + apply (fifo_quiet k t w); try done.
      apply wire_events_recv_None. unfold wire_event. by rewrite Hload, Hid.
    + by apply (fifo_stopped k t w).
    + (* an event is queued *)
      destruct Hinv as (rest & Heq & Hrest). rewrite (Hrest Hrun) in Heq.
      exists []. split; [| done]. simpl.
      rewrite wire_events_snoc, <- Heq, !app_nil_r.
      unfold delivered_to at 1; simpl. fold (delivered_to k w).
      rewrite queue_of_insert.
      unfold wire_events; simpl. unfold wire_event.
      rewrite Hload, Hid, Hm, Hp, Hev, Ha, He, Hk; simpl. unfold pick; simpl.
      case_decide as Hkk.
      * subst k'. fold (queue_of k (rpc w)). by rewrite <- app_assoc.
      * by rewrite app_nil_r.
    + apply (fifo_stopped k t w); try done.
      simpl. rewrite queue_of_insert. case_decide; [by subst | done].
    + apply (fifo_quiet k t w); try done.
      apply wire_events_recv_None. unfold wire_event.
      by rewrite Hload, Hid, Hm, Hev; destruct (dict_get "params" d) as [[| | | | |] |].
  - (* wait_for_event *)
    simpl.
    destruct (step_wait_cases account_id w)
      as [(x & -> & _) | (k0 & s' & ev & _ & Hg & ->)].
    + by apply (fifo_quiet k t w).
    + by apply (fifo_pop k k0 t w).
  - (* a parked caller resumes *)
    simpl.
    destruct (step_resume_cases c w)
      as [-> | [(fut' & response & Ht & Hf & ->) | (k0 & s' & ev & Ht & Hg & ->)]].
    + by apply (fifo_quiet k t w).
    + by apply (fifo_quiet k t w).
    + by apply (fifo_pop k k0 t w).
Qed.

Lemma fifo_run k t : fifo_inv k t (run sys_start t).
Proof.
  induction t as [| a t IH] using rev_ind.
  - exists []. split; [reflexivity | done].
  - rewrite run_snoc. by apply fifo_step.
Qed.

Lemma pop_frame k k' s s' ev (log : list (pykey * json)) :
  queue_get k s = Some (s', ev) ->
  k' <> k ->
  event_queues s' !! k' = event_queues s !! k'
  /\ omap (pick k') (log ++ [(k, ev)]) = omap (pick k') log.
Proof.
  intros Hg Hne. apply queue_get_Some in Hg as (rest & _ & ->). split.
  - simpl. by rewrite lookup_insert_ne.
  - rewrite omap_app; simpl. unfold pick at 2; simpl.
    rewrite decide_False by done. by rewrite app_nil_r.
Qed.

(** C5.  (a) The [i]-th event that [wait_for_event] hands out for an
    account is the [i]-th event notification for that account on the
    wire: calls return the events in arrival order.  (b) While the reader
    loop runs nothing is lost: what was handed out followed by what is
    queued is exactly what arrived.  (c) A [wait_for_event] on account
    [k], whether it returns at once or after being parked, leaves the
    queue of every other account and what was handed out for it as they
    were. *)
Theorem C5_event_fifo :
  (forall (t : list action) (k : pykey) (i : nat) (ev : json),
      delivered_to k (run sys_start t) !! i = Some ev ->
      wire_events k t !! i = Some ev)
  /\ (forall (t : list action) (k : pykey),
        reader (run sys_start t) = Running ->
        delivered_to k (run sys_start t) ++ queue_of k (rpc (run sys_start t))
          = wire_events k t)
  /\ (forall (w : sys) (a : action) (k k' : pykey),
        (exists account_id, a = AWait account_id /\ to_key account_id = inr k)
        \/ (exists c, a = AResume c /\ tasks w !! c = Some (Waiting k)) ->
        k' <> k ->
        event_queues (rpc (step w a)) !! k' = event_queues (rpc w) !! k'
        /\ delivered_to k' (step w a) = delivered_to k' w).
Proof.
  split; [| split].
  - intros t k i ev Hi.
    destruct (fifo_run k t) as (rest & <- & _).
    rewrite lookup_app_l; [done |]. by eapply lookup_lt_Some.
  - intros t k Hrun.
    destruct (fifo_run k t) as (rest & <- & Hrest).
    by rewrite (Hrest Hrun), app_nil_r.
  - intros w a k k' [(account_id & -> & Hk) | (c & -> & Hc)] Hne; simpl.
    + destruct (step_wait_cases account_id w)
        as [(x & -> & _) | (k0 & s' & ev & Hk0 & Hg & ->)]; [done |].
      assert (k0 = k) as -> by congruence.
      unfold delivered_to; simpl. by apply (pop_frame k).
    + destruct (step_resume_cases c w)
        as [-> | [(fut' & response & Ht & Hf & ->) | (k0 & s' & ev & Ht & Hg & ->)]];
        [done | done |].
      assert (k0 = k) as -> by congruence.
      unfold delivered_to; simpl. by apply (pop_frame k).
Qed.

Lemma C5_witness :
  tasks (run sys_start two_events)
    = [Finished (Return (JStr "A")); Finished (Return (JStr "B"))]
  /\ wire_events (KInt 5) two_events !! 1%nat = Some (JStr "B")
  /\ queue_of (KInt 7) (rpc (run sys_start two_events)) = [JStr "X"].
Proof.
  destruct C5_event_fifo as (Hfifo & Hall & Hframe).
  split; [vm_compute; reflexivity |]. split.
  - apply (Hfifo two_events (KInt 5) 1%nat (JStr "B")). vm_compute. reflexivity.
  - assert (Hrun : reader (run sys_start two_events) = Running)
      by (vm_compute; reflexivity).
    pose proof (Hall two_events (KInt 7) Hrun) as H.
    assert (Hd : delivered_to (KInt 7) (run sys_start two_events) = [])
      by (vm_compute; reflexivity).
    rewrite Hd, app_nil_l in H. rewrite H. vm_compute. reflexivity.
Defined.

(** ** Presence of the queue *)

Lemma no_queue_step k w a :
  event_queues (rpc w) !! k = None ->
  (forall line, a = ARecv line -> wire_event_account line <> Some k) ->
  event_queues (rpc (step w a)) !! k = None.
Proof.
  intros Hq Hwire.
  destruct a as [attr args kwargs | line | account_id | c]; simpl.
  - rewrite step_call_rpc. by destruct (truthy args && truthy kwargs).
  - destruct (reader w) eqn:Hrun; try (by rewrite step_recv_idle by congruence).
    destruct (json_loads line) as [v | |] eqn:Hload.
    + rewrite (step_recv_loaded _ _ _ Hrun Hload); simpl.
      specialize (Hwire line eq_refl). unfold wire_event_account in Hwire.
      rewrite Hload in Hwire.
      destruct (dispatch_cases v (rpc w))
        as [e | d idv k' fut' -> Hid Hk Hreq Hfut | d idv k' fut' -> Hid Hk Hreq Hfut
            | d m p a k' ev -> Hid Hm Hev Hp Ha Hk He | d m p a k' -> Hid Hm Hev Hp Ha Hk He
            | d m -> Hid Hm Hev]; simpl; try done;
        rewrite Hid, Hm, Hp, Hev, Ha, Hk in Hwire;
        rewrite lookup_insert_ne; [done | congruence | done | congruence].
    + by destruct (step_recv_not_loaded line w Hrun) as [-> _]; [congruence |].
    + by destruct (step_recv_not_loaded line w Hrun) as [-> _]; [congruence |].
  - destruct (step_wait_cases account_id w)
      as [(x & -> & _) | (k0 & s' & ev & _ & Hg & ->)]; [done |]. simpl.
    apply queue_get_Some in Hg as (rest & Hq0 & ->). simpl.
    rewrite lookup_insert_ne; [done | congruence].
  - destruct (step_resume_cases c w)
      as [-> | [(fut' & response & Ht & Hf & ->) | (k0 & s' & ev & Ht & Hg & ->)]];
      [done | done |]. simpl.
    apply queue_get_Some in Hg as (rest & Hq0 & ->). simpl.
    rewrite lookup_insert_ne; [done | congruence].
Qed.

Lemma no_queue_run k t :
  forall w,
    event_queues (rpc w) !! k = None ->
    (forall line, In (ARecv line) t -> wire_event_account line <> Some k) ->
    event_queues (rpc (run w t)) !! k = None.
Proof.
  induction t as [| a t IH]; intros w Hq Hwire; [done |].
  rewrite run_cons. apply IH.
  - apply no_queue_step; [done |]. intros line ->. apply Hwire. by left.
  - intros line Hin. apply Hwire. by right.
Qed.

(** C6.  (a) With no queue for the account, [wait_for_event] returns
    [None] at once and changes nothing.  (b) While the loop runs, after
    any schedule in which no event notification for the account was on
    the wire there is no queue, so the call returns [None] without
    parking.  (c) With a queue that holds an event the call returns the
    oldest one.  (d) With a queue that is empty the caller is parked;
    resuming it does nothing while the queue is empty, and once the
    reader loop has queued an event the caller returns that event, no
    other caller being parked on that queue before it. *)
Theorem C6_queue_presence_gates_blocking :
  (forall (s : Rpc) (account_id : json) (k : pykey),
      to_key account_id = inr k ->
      event_queues s !! k = None ->
      wait_for_event account_id s = (s, WAbsent))
  /\ (forall (t : list action) (account_id : json) (k : pykey),
        to_key account_id = inr k ->
        (forall line, In (ARecv line) t -> wire_event_account line <> Some k) ->
        let w := run sys_start t in
        reader w = Running ->
        event_queues (rpc w) !! k = None
        /\ step w (AWait account_id)
           = mkSys (rpc w) (reader w) (tasks w ++ [Finished (Return JNull)]) (delivered w))
  /\ (forall (s : Rpc) (account_id : json) (k : pykey) (ev : json) (rest : list json),
        to_key account_id = inr k ->
        event_queues s !! k = Some (ev :: rest) ->
        wait_for_event account_id s
          = (with_event_queues (<[k := rest]> (event_queues s)) s, WEvent k ev))
  /\ (forall (w : sys) (account_id : json) (k : pykey),
        to_key account_id = inr k ->
        event_queues (rpc w) !! k = Some [] ->
        let c := length (tasks w) in
        let w' := step w (AWait account_id) in
        w' = mkSys (rpc w) (reader w) (tasks w ++ [Waiting k]) (delivered w)
        /\ step w' (AResume c) = w'
        /\ (forall line ev,
              reader w = Running ->
              (forall c', tasks w !! c' <> Some (Waiting k)) ->
              wire_event line = Some (k, ev) ->
              tasks (run w' [ARecv line; AResume c]) !! c
                = Some (Finished (Return ev)))).
Proof.
  assert (Habsent : forall s account_id k,
             to_key account_id = inr k -> event_queues s !! k = None ->
             wait_for_event account_id s = (s, WAbsent)).
  { intros s account_id k Hk Hq. unfold wait_for_event. by rewrite Hk, Hq. }
  split; [exact Habsent |]. split; [| split].
  - intros t account_id k Hk Hwire w _.
    assert (Hq : event_queues (rpc w) !! k = None).
    { apply no_queue_run; [apply lookup_empty | done]. }
    split; [done |]. simpl. unfold step_wait.
    by rewrite (Habsent _ _ _ Hk Hq).
  - intros s account_id k ev rest Hk Hq.
    unfold wait_for_event, queue_get. by rewrite Hk, Hq.
  - intros w account_id k Hk Hq c w'.
    assert (E : w' = mkSys (rpc w) (reader w) (tasks w ++ [Waiting k]) (delivered w)).
    { unfold w'. simpl. unfold step_wait, wait_for_event, queue_get.
      by rewrite Hk, Hq. }
    assert (Hc : tasks w' !! c = Some (Waiting k)).
    { rewrite E. simpl. rewrite lookup_app_r by (unfold c; lia).
      unfold c. by rewrite Nat.sub_diag. }
    split; [exact E |]. split.
    + simpl. unfold step_resume. rewrite Hc. unfold queue_get.
      rewrite E at 1. simpl. by rewrite Hq.
    + intros line ev Hrun _ Hev. unfold run; simpl.
      assert (Hrun' : reader w' = Running) by (by rewrite E).
      pose proof (step_recv_event line k ev w' Hrun' Hev) as E2. simpl in E2.
      rewrite E2. unfold step_resume; simpl. rewrite Hc.
      unfold queue_get; simpl. rewrite lookup_insert_eq.
      unfold queue_of. rewrite E at 1. simpl. rewrite Hq. simpl.
      apply list_lookup_insert_eq. by eapply lookup_lt_Some.
Qed.

Lemma C6_witness :
  step (run sys_start [ARecv (event_line 5 "A")]) (AWait (JInt 9))
    = mkSys (rpc (run sys_start [ARecv (event_line 5 "A")])) Running
            [Finished (Return JNull)] []
  /\ tasks (run (run sys_start [ARecv (event_line 5 "A"); AWait (JInt 5)])
                [AWait (JInt 5); ARecv (event_line 5 "B"); AResume 1%nat])
     !! 1%nat = Some (Finished (Return (JStr "B"))).
Proof.
  destruct C6_queue_presence_gates_blocking as (_ & Hnone & _ & Hpark).
  split.
  - destruct (Hnone [ARecv (event_line 5 "A")] (JInt 9) (KInt 9) eq_refl) as [_ H].
    + intros line [[= <-] | []]. vm_compute. discriminate.
    + vm_compute. reflexivity.
    + exact H.
  - destruct (Hpark (run sys_start [ARecv (event_line 5 "A"); AWait (JInt 5)])
                (JInt 5) (KInt 5) eq_refl) as (_ & _ & H).
    + vm_compute. reflexivity.
    + apply (H (event_line 5 "B") (JStr "B")).
      * vm_compute. reflexivity.
      * assert (E : tasks (run sys_start [ARecv (event_line 5 "A"); AWait (JInt 5)])
                    = [Finished (Return (JStr "A"))]) by (vm_compute; reflexivity).
        rewrite E. intros [| c']; [discriminate |]. simpl. discriminate.
      * vm_compute. reflexivity.
Defined.

(** ** Lines that are neither a response nor an event *)

(** An object without [id] whose [method] is something other than
    ["event"] is printed and the loop goes on. *)
Lemma reader_prints_unrecognized w line d m :
  reader w = Running ->
  json_loads line = Loaded (JObj d) ->
  dict_get "id" d = None ->
  dict_get "method" d = Some m ->
  py_eq_str m "event" = false ->
  step w (ARecv line) =
    mkSys (with_console (console (rpc w) ++ [JObj d]) (rpc w)) Running
          (tasks w) (delivered w).
Proof.
  intros Hrun Hload Hid Hm Hev. simpl.
  rewrite (step_recv_loaded _ _ _ Hrun Hload).
  assert (E : dispatch (JObj d) (rpc w)
              = (with_console (console (rpc w) ++ [JObj d]) (rpc w), inr tt)).
  { unfold dispatch. run_m. rewrite Hid. run_m. rewrite Hm. run_m.
    rewrite Hev. reflexivity. }
  by rewrite E.
Qed.

(** C7, as the code has it.  An object with neither [id] nor [method]
    never reaches the [print] branch: the subscript [response["method"]]
    raises [KeyError], the reader loop ends with that exception, and
    nothing is printed. *)
Theorem C7_object_without_method_ends_reader :
  forall (w : sys) (line : string) (d : dict),
    reader w = Running ->
    json_loads line = Loaded (JObj d) ->
    dict_get "id" d = None ->
    dict_get "method" d = None ->
    step w (ARecv line) =
      mkSys (rpc w) (Crashed (KeyError (JStr "method"))) (tasks w) (delivered w).
Proof.
  intros w line d Hrun Hload Hid Hm. simpl.
  rewrite (step_recv_loaded _ _ _ Hrun Hload).
  assert (E : dispatch (JObj d) (rpc w) = (rpc w, inl (KeyError (JStr "method")))).
  { unfold dispatch. run_m. rewrite Hid. run_m. rewrite Hm. reflexivity. }
  by rewrite E.
Qed.

Lemma C7_witness :
  reader (step sys_start (ARecv stray_line)) = Crashed (KeyError (JStr "method"))
  /\ console (rpc (step sys_start (ARecv stray_line))) = [].
Proof.
  rewrite (C7_object_without_method_ends_reader sys_start stray_line
             [("foo", JInt 1)] eq_refl);
    [split; reflexivity | vm_compute; reflexivity | reflexivity | reflexivity].
Defined.

(** * Further properties of the transport *)

(** ** What is written to the child *)

Lemma dispatch_keeps_id_stdin v s :
  id (dispatch v s).1 = id s /\ stdin (dispatch v s).1 = stdin s.
Proof. by destruct (dispatch_cases v s). Qed.

Lemma step_keeps_id_stdin w a :
  is_call a = false ->
  id (rpc (step w a)) = id (rpc w) /\ stdin (rpc (step w a)) = stdin (rpc w).
Proof.
  destruct a as [attr args kwargs | line | account_id | c]; [done | | |]; intros _; simpl.
  - destruct (reader w) eqn:Hrun; try (by rewrite step_recv_idle by congruence).
    destruct (json_loads line) as [v | |] eqn:Hload.
    + rewrite (step_recv_loaded _ _ _ Hrun Hload); simpl.
      apply dispatch_keeps_id_stdin.
    + by destruct (step_recv_not_loaded line w Hrun) as [-> _]; [congruence |].
    + by destruct (step_recv_not_loaded line w Hrun) as [-> _]; [congruence |].
  - destruct (step_wait_cases account_id w)
      as [(x & -> & _) | (k0 & s' & ev & _ & Hg & ->)]; [done |].
    by apply queue_get_Some in Hg as (rest & _ & ->).
  - destruct (step_resume_cases c w)
      as [-> | [(fut' & response & Ht & Hf & ->) | (k0 & s' & ev & Ht & Hg & ->)]];
      [done | done |].
    by apply queue_get_Some in Hg as (rest & _ & ->).
Qed.

Lemma request_log_from t :
  forall w,
    id (rpc (run w t)) = id (rpc w) + calls_made t
    /\ stdin (rpc (run w t)) = stdin (rpc w) ++ requests_from (id (rpc w)) t.
Proof.
  induction t as [| a t IH]; intros w.
  { simpl. split; [lia | by rewrite app_nil_r]. }
  rewrite run_cons. destruct (IH (step w a)) as [IHid IHin].
  rewrite IHid, IHin. clear IH IHid IHin.
  destruct (is_call a) eqn:Hcall.
  - destruct a as [attr args kwargs | | |]; try done.
    simpl calls_made. simpl requests_from.
    simpl step. rewrite step_call_rpc.
    destruct (truthy args && truthy kwargs); simpl.
    + split; [lia | done].
    + split; [lia |]. by rewrite <- app_assoc.
  - destruct (step_keeps_id_stdin w a Hcall) as [-> ->].
    simpl calls_made. rewrite Hcall.
    split; [lia |]. by destruct a.
Qed.

(** X1.  After any schedule the request counter is the number of calls
    made so far, rejected ones included, and the child's standard input
    holds exactly the request lines of the accepted calls, in call order,
    each with the ordinal of its call as [id]; nothing else ever writes to
    it. *)
Theorem X1_request_log :
  forall t : list action,
    id (rpc (run sys_start t)) = calls_made t
    /\ stdin (rpc (run sys_start t)) = requests_from 0 t.
Proof. intros t. destruct (request_log_from t sys_start) as [-> ->]. by simpl. Qed.

(** Induction on JSON values, through arrays and objects. *)
Lemma json_induction (P : json -> Prop) :
  P JNull ->
  (forall b, P (JBool b)) ->
  (forall n, P (JInt n)) ->
  (forall s, P (JStr s)) ->
  (forall items, Forall P items -> P (JArr items)) ->
  (forall members, Forall (fun kv => P kv.2) members -> P (JObj members)) ->
  forall v, P v.
Proof.
  intros Hnull Hbool Hint Hstr Harr Hobj.
  fix IH 1. intros [| b | n | s | items | members].
  - exact Hnull.
  - apply Hbool.
  - apply Hint.
  - apply Hstr.
  - apply Harr. induction items as [| x items IHitems]; constructor.
    + apply IH.
    + exact IHitems.
  - apply Hobj. induction members as [| [k x] members IHmembers]; constructor.
    + apply IH.
    + exact IHmembers.
Qed.

Lemma all_printable_app a b :
  all_printable (a +:+ b) = all_printable a && all_printable b.
Proof.
  induction a as [| c a IH]; simpl; [done |].
  rewrite IH. by rewrite andb_assoc.
Qed.

Lemma escape_char_printable c : all_printable (escape_char c) = true.
Proof. destruct c as [[] [] [] [] [] [] [] []]; reflexivity. Qed.

Lemma encode_str_printable s : all_printable (encode_str s) = true.
Proof.
  unfold encode_str, q. simpl. rewrite all_printable_app. simpl.
  rewrite andb_true_r.
  induction s as [| c s IH]; simpl; [done |].
  by rewrite all_printable_app, escape_char_printable, IH.
Qed.

Lemma int_repr_printable n : all_printable (int_repr n) = true.
Proof.
  assert (Hu : forall d, all_printable (NilEmpty.string_of_uint d) = true)
    by (induction d; simpl; auto).
  assert (Hz : forall d, all_printable (NilZero.string_of_uint d) = true)
    by (intros []; simpl; auto; apply Hu).
  unfold int_repr. destruct (Z.to_int n); simpl; auto.
Qed.

Lemma join_printable sep l :
  all_printable sep = true ->
  Forall (fun x => all_printable x = true) l ->
  all_printable (join sep l) = true.
Proof.
  intros Hsep Hl. induction Hl as [| x l Hx Hl IH]; simpl; [done |].
  destruct l as [| y l]; [done |].
  rewrite !all_printable_app, Hx, Hsep. exact IH.
Qed.

Lemma json_dumps_printable v : all_printable (json_dumps v) = true.
Proof.
  induction v as [| [] | n | s | items IH | members IH] using json_induction;
    try reflexivity.
  - apply int_repr_printable.
  - apply encode_str_printable.
  - simpl. rewrite !all_printable_app. simpl. rewrite andb_true_r.
    apply join_printable; [done |].
    apply Forall_map. exact IH.
  - simpl. rewrite !all_printable_app. simpl. rewrite andb_true_r.
    apply join_printable; [done |].
    apply Forall_map. eapply Forall_impl; [exact IH |].
    intros [k x] Hx. cbn beta in Hx.
    by rewrite !all_printable_app, encode_str_printable, Hx.
Qed.

Lemma requests_from_lines n t :
  Forall (fun line => exists body,
            line = body +:+ nl /\ all_printable body = true)
         (requests_from n t).
Proof.
  revert n. induction t as [| a t IH]; intros n; simpl; [constructor |].
  destruct a as [attr args kwargs | | |]; try apply IH.
  apply Forall_app. split; [| apply IH].
  destruct (truthy args && truthy kwargs); constructor; [| constructor].
  eexists. split; [reflexivity |]. apply json_dumps_printable.
Qed.

(** X2.  Whatever the method name and the arguments, every request
    written to the child is one line: printable ASCII characters only
    (so no line break inside, [json.dumps] escapes them) followed by one
    newline. *)
Theorem X2_requests_are_single_ascii_lines :
  forall t : list action,
    Forall (fun line => exists body,
              line = body +:+ nl /\ all_printable body = true)
           (stdin (rpc (run sys_start t))).
Proof.
  intros t. destruct (request_log_from t sys_start) as [_ ->]. simpl.
  apply requests_from_lines.
Qed.

(** ** How the reader loop ends *)

Lemma dispatch_error_kinds v s e :
  registry_ok s ->
  (dispatch v s).2 = inl e ->
  e = TypeError \/ exists key, e = KeyError key.
Proof.
  intros [Hreg _].
  destruct v as [| b | n | str | items | d]; unfold dispatch; run_m;
    try (intros [= <-]; by left).
  - destruct (is_substring _ str); run_m; intros [= <-]; by left.
  - destruct (existsb _ items); run_m; intros [= <-]; by left.
  - destruct (dict_get "id" d) as [idv |] eqn:Hid; run_m.
    + case_decide; run_m; [intros [= <-]; right; by eexists |].
      destruct (to_key idv) as [e' | k] eqn:Hk; run_m;
        [intros [= <-]; left; destruct idv; simpl in Hk; congruence |].
      destruct (request_events s !! k) as [fut |] eqn:Hreq; run_m;
        [| intros [= <-]; right; by eexists].
      destruct (Hreg k fut Hreq) as [_ Hfut]. by rewrite Hfut.
    + destruct (dict_get "method" d) as [m |] eqn:Hm; run_m;
        [| intros [= <-]; right; by eexists].
      destruct (py_eq_str m "event") eqn:Hev; run_m; [| done].
      destruct (dict_get "params" d) as [params |] eqn:Hp; run_m;
        [| intros [= <-]; right; by eexists].
      destruct params as [| b | n | str | items | p]; run_m;
        try (intros [= <-]; by left).
      destruct (dict_get "contextId" p) as [a |] eqn:Ha; run_m;
        [| intros [= <-]; right; by eexists].
      destruct (to_key a) as [e' | k] eqn:Hk; run_m;
        [intros [= <-]; left; destruct a; simpl in Hk; congruence |].
      destruct (decide (event_queues s !! k = None)); run_m;
        (destruct (dict_get "event" p) as [ev |] eqn:He; run_m;
           [done | intros [= <-]; right; by eexists]).
Qed.

Lemma step_reader_other w a :
  is_recv a = false -> reader (step w a) = reader w.
Proof.
  destruct a as [attr args kwargs | line | account_id | c]; [| done | |]; intros _; simpl.
  - apply step_call_reader.
  - apply step_wait_calls.
  - apply step_resume_calls.
Qed.

(** X3.  The loop never sets the result of a future twice: after any
    schedule, while the loop runs, no line that decodes makes
    [fut.set_result] raise [InvalidStateError], because a future leaves
    the registry in the same stretch that resolves it.  Callers being
    cancelled is outside the modelled schedules. *)
Theorem X3_no_future_is_resolved_twice :
  forall (t : list action) (line : string) (v : json),
    let w := run sys_start t in
    reader w = Running ->
    json_loads line = Loaded v ->
    reader (step w (ARecv line)) <> Crashed InvalidStateError.
Proof.
  intros t line v w Hrun Hload. simpl.
  rewrite (step_recv_loaded _ _ _ Hrun Hload). simpl.
  destruct (dispatch v (rpc w)).2 as [e | []] eqn:Hd; [| done].
  intros [= ->].
  destruct (dispatch_error_kinds v (rpc w) InvalidStateError
              (registry_ok_run t) Hd) as [? | [key ?]]; discriminate.
Qed.

Lemma X3_witness :
  reader (step (run sys_start [ACall "get_info" [] []; ARecv (result_line 1 "one")])
               (ARecv (result_line 1 "again")))
    <> Crashed InvalidStateError.
Proof.
  apply (X3_no_future_is_resolved_twice
           [ACall "get_info" [] []; ARecv (result_line 1 "one")]
           (result_line 1 "again")
           (JObj [("id", JInt 1); ("result", JStr "again")]));
    vm_compute; reflexivity.
Defined.

(** X4.  A response whose [id] names no request handed out so far (a
    number above the counter, a string, [null]) is fatal: read by the
    running loop after any schedule, it ends the loop with [KeyError] on
    that id and changes nothing else, so a response must not overtake its
    request. *)
Theorem X4_unsolicited_response_is_fatal :
  forall (t : list action) (line : string) (d : dict) (idv : json) (k : pykey),
    let w := run sys_start t in
    reader w = Running ->
    json_loads line = Loaded (JObj d) ->
    dict_get "id" d = Some idv ->
    to_key idv = inr k ->
    (forall r, k = KInt r -> id (rpc w) < r) ->
    step w (ARecv line)
      = mkSys (rpc w) (Crashed (KeyError idv)) (tasks w) (delivered w).
Proof.
  intros t line d idv k w Hrun Hload Hid Hk Hnew.
  assert (Hreq : request_events (rpc w) !! k = None).
  { destruct (request_events (rpc w) !! k) as [fut |] eqn:E; [| done].
    destruct (registry_ok_run t) as [Hreg _]. fold w in Hreg.
    destruct (Hreg k fut E) as [(r & -> & Hr) _].
    specialize (Hnew r eq_refl). lia. }
  simpl. rewrite (step_recv_loaded _ _ _ Hrun Hload).
  by rewrite (dispatch_unknown_id _ _ _ _ Hid Hk Hreq).
Qed.

Lemma X4_witness :
  reader (step (run sys_start [ACall "get_info" [] []]) (ARecv (result_line 2 "early")))
    = Crashed (KeyError (JInt 2)).
Proof.
  rewrite (X4_unsolicited_response_is_fatal [ACall "get_info" [] []]
             (result_line 2 "early")
             [("id", JInt 2); ("result", JStr "early")] (JInt 2) (KInt 2)).
  - reflexivity.
  - vm_compute. reflexivity.
  - vm_compute. reflexivity.
  - reflexivity.
  - reflexivity.
  - intros r [= <-]. vm_compute. reflexivity.
Defined.

(** X5.  A line that decodes to anything but an object (a number, a
    string, a list, [true], [null]) ends the running loop with
    [TypeError], and no field of the transport changes. *)
Theorem X5_non_object_line_is_fatal :
  forall (w : sys) (line : string) (v : json),
    reader w = Running ->
    json_loads line = Loaded v ->
    (forall d, v <> JObj d) ->
    step w (ARecv line) = mkSys (rpc w) (Crashed TypeError) (tasks w) (delivered w).
Proof.
  intros w line v Hrun Hload Hobj. simpl.
  rewrite (step_recv_loaded _ _ _ Hrun Hload).
  assert (E : dispatch v (rpc w) = (rpc w, inl TypeError)).
  { destruct v as [| b | n | str | items | d]; unfold dispatch; run_m;
      try reflexivity.
    - by destruct (is_substring _ str).
    - by destruct (existsb _ items).
    - by destruct (Hobj d). }
  by rewrite E.
Qed.

Lemma X5_witness :
  reader (step sys_start (ARecv ("[" +:+ q "id" +:+ ", 1]" +:+ nl))) = Crashed TypeError.
Proof.
  rewrite (X5_non_object_line_is_fatal sys_start ("[" +:+ q "id" +:+ ", 1]" +:+ nl)
             (JArr [JStr "id"; JInt 1]));
    [reflexivity | reflexivity | vm_compute; reflexivity | done].
Defined.

(** ** What is left parked *)

Lemma reader_stopped_step w a :
  reader w <> Running -> reader (step w a) = reader w.
Proof.
  intros Hstop. destruct (is_recv a) eqn:Hrecv;
    [| by apply step_reader_other].
  destruct a as [| line | |]; try done. simpl. by rewrite step_recv_idle.
Qed.

Lemma reader_stopped_run t :
  forall w, reader w <> Running -> reader (run w t) = reader w.
Proof.
  induction t as [| a t IH]; intros w Hstop; [done |].
  rewrite run_cons, IH; rewrite reader_stopped_step; done.
Qed.

Lemma parked_step c fut w a :
  reader w <> Running ->
  tasks w !! c = Some (Awaiting fut) ->
  futures (rpc w) !! fut = Some None ->
  tasks (step w a) !! c = Some (Awaiting fut)
  /\ futures (rpc (step w a)) !! fut = Some None.
Proof.
  intros Hstop Hc Hf.
  destruct a as [attr args kwargs | line | account_id | c']; simpl.
  - split.
    + unfold step_call.
      destruct (method attr args kwargs (rpc w)) as [s' [e | fut']]; simpl;
        by apply lookup_task_app.
    + rewrite step_call_rpc. destruct (truthy args && truthy kwargs); simpl; [done |].
      rewrite lookup_app_l; [done |]. by eapply lookup_lt_Some.
  - by rewrite step_recv_idle.
  - destruct (step_wait_calls account_id w) as [(_ & _ & ->) _]. split; [| done].
    destruct (step_wait_cases account_id w)
      as [(x & -> & _) | (k0 & s' & ev & _ & _ & ->)]; simpl;
      by apply lookup_task_app.
  - destruct (step_resume_calls c' w) as [(_ & _ & ->) _]. split; [| done].
    destruct (step_resume_cases c' w)
      as [-> | [(fut' & response & Ht & Hfut & ->) | (k0 & s' & ev & Ht & Hg & ->)]];
      [done | |]; simpl.
    + destruct (decide (c' = c)) as [-> | Hne];
        [congruence | by rewrite list_lookup_insert_ne].
    + destruct (decide (c' = c)) as [-> | Hne];
        [congruence | by rewrite list_lookup_insert_ne].
Qed.

(** X7.  Once the reader loop is over (it returned at the end of the
    stream, or an exception ended it) a caller still parked on a pending
    future stays parked along every later schedule, whatever arrives on
    the wire: nothing fails or cancels the calls in flight. *)
Theorem X7_pending_calls_hang_after_loop_ends :
  forall (w : sys) (c fut : nat) (t : list action),
    reader w = Exited \/ (exists e, reader w = Crashed e) ->
    tasks w !! c = Some (Awaiting fut) ->
    futures (rpc w) !! fut = Some None ->
    tasks (run w t) !! c = Some (Awaiting fut)
    /\ futures (rpc (run w t)) !! fut = Some None.
Proof.
  intros w c fut t Hover.
  assert (Hstop : reader w <> Running)
    by (destruct Hover as [E | [e E]]; rewrite E; discriminate).
  clear Hover. revert w Hstop.
  induction t as [| a t IH]; intros w Hstop Hc Hf; [done |].
  rewrite run_cons.
  destruct (parked_step c fut w a Hstop Hc Hf) as [Hc' Hf'].
  apply IH; [| done | done]. by rewrite reader_stopped_step.
Qed.

Lemma X7_witness :
  tasks (run (run sys_start [ACall "get_info" [] []; ARecv EmptyString])
             [ARecv get_info_response_line; AResume 0%nat]) !! 0%nat
    = Some (Awaiting 0%nat).
Proof.
  apply (X7_pending_calls_hang_after_loop_ends
           (run sys_start [ACall "get_info" [] []; ARecv EmptyString]) 0%nat 0%nat
           [ARecv get_info_response_line; AResume 0%nat]).
  - left. vm_compute. reflexivity.
  - vm_compute. reflexivity.
  - vm_compute. reflexivity.
Defined.

(** X8.  There is no deadline: while the loop runs, a call for which no
    response line with its id has arrived is still parked, registered
    and pending, whatever other calls, responses and events there
    were. *)
Theorem X8_no_response_no_return :
  forall (t1 : list action) (attr : string) (args : list json) (kwargs : dict)
         (t2 : list action),
    truthy args && truthy kwargs = false ->
    let w1 := run sys_start t1 in
    let r := id (rpc w1) + 1 in
    let fut := length (futures (rpc w1)) in
    let c := length (tasks w1) in
    let w := run sys_start (t1 ++ ACall attr args kwargs :: t2) in
    reader w = Running ->
    (forall line v, In (ARecv line) t2 -> ~ response_for r line v) ->
    tasks w !! c = Some (Awaiting fut)
    /\ request_events (rpc w) !! KInt r = Some fut
    /\ futures (rpc w) !! fut = Some None.
Proof.
  intros t1 attr args kwargs t2 Hmix w1 r fut c w _ Hnone.
  set (w0 := step w1 (ACall attr args kwargs)).
  assert (Hw : w = run w0 t2) by (unfold w; by rewrite run_app).
  assert (Hreg0 : registry_ok (rpc w0)).
  { unfold w0, w1. rewrite <- run_snoc. apply registry_ok_run. }
  assert (Htr0 : tracked r fut c w0 None) by (by apply tracked_sent).
  destruct (tracked_run r fut c t2 w0 None Hreg0 Htr0) as (resp & Htr & Hch).
  destruct Hch as [-> | (line & v & Hin & Hresp & _)];
    [| by destruct (Hnone line v Hin)].
  rewrite Hw. by destruct Htr as (_ & ? & ? & ?).
Qed.

Lemma X8_witness :
  tasks (run sys_start
           ([ACall "get_info" [] []]
              ++ ACall "get_info" [] [] ::
                 [ARecv (result_line 1 "one"); ARecv (event_line 5 "A");
                  AResume 1%nat])) !! 1%nat
    = Some (Awaiting 1%nat).
Proof.
  refine (proj1 (X8_no_response_no_return [ACall "get_info" [] []] "get_info" [] []
                   [ARecv (result_line 1 "one"); ARecv (event_line 5 "A");
                    AResume 1%nat] eq_refl _ _)).
  - vm_compute. reflexivity.
  - intros line v Hin (d & idv & Hload & -> & Hid & Hk).
    destruct Hin as [[= <-] | [[= <-] | [[=] | []]]];
      vm_compute in Hload; try discriminate;
      injection Hload as <-; vm_compute in Hid; try discriminate;
      injection Hid as <-; vm_compute in Hk; discriminate.
Defined.

(** ** Queues once created *)

Lemma queue_exists_step k w a :
  is_Some (event_queues (rpc w) !! k) ->
  is_Some (event_queues (rpc (step w a)) !! k).
Proof.
  intros Hq. destruct a as [attr args kwargs | line | account_id | c]; simpl.
  - rewrite step_call_rpc. by destruct (truthy args && truthy kwargs).
  - destruct (reader w) eqn:Hrun; try (by rewrite step_recv_idle by congruence).
    destruct (json_loads line) as [v | |] eqn:Hload.
    + rewrite (step_recv_loaded _ _ _ Hrun Hload); simpl.
      destruct (dispatch_cases v (rpc w)); simpl; try done;
        rewrite lookup_insert; by case_decide.
    + by destruct (step_recv_not_loaded line w Hrun) as [-> _]; [congruence |].
    + by destruct (step_recv_not_loaded line w Hrun) as [-> _]; [congruence |].
  - destruct (step_wait_cases account_id w)
      as [(x & -> & _) | (k0 & s' & ev & _ & Hg & ->)]; [done |]. simpl.
    apply queue_get_Some in Hg as (rest & _ & ->). simpl.
    rewrite lookup_insert. by case_decide.
  - destruct (step_resume_cases c w)
      as [-> | [(fut' & response & Ht & Hf & ->) | (k0 & s' & ev & Ht & Hg & ->)]];
      [done | done |]. simpl.
    apply queue_get_Some in Hg as (rest & _ & ->). simpl.
    rewrite lookup_insert. by case_decide.
Qed.

Lemma queue_exists_run k t :
  forall w, is_Some (event_queues (rpc w) !! k) ->
            is_Some (event_queues (rpc (run w t)) !! k).
Proof.
  induction t as [| a t IH]; intros w Hq; [done |].
  rewrite run_cons. apply IH. by apply queue_exists_step.
Qed.

Lemma wire_event_account_Some line k :
  wire_event_account line = Some k ->
  exists d m p a,
    json_loads line = Loaded (JObj d)
    /\ dict_get "id" d = None
    /\ dict_get "method" d = Some m
    /\ py_eq_str m "event" = true
    /\ dict_get "params" d = Some (JObj p)
    /\ dict_get "contextId" p = Some a
    /\ to_key a = inr k.
Proof.
  unfold wire_event_account.
  destruct (json_loads line) as [[| | | | | d] | |]; try done.
  destruct (dict_get "id" d) eqn:Hid; try done.
  destruct (dict_get "method" d) as [m |] eqn:Hm; try done.
  destruct (dict_get "params" d) as [[| | | | | p] |] eqn:Hp; try done.
  destruct (py_eq_str m "event") eqn:Hev; try done.
  destruct (dict_get "contextId" p) as [a |] eqn:Ha; try done.
  destruct (to_key a) as [e | k'] eqn:Hk; try done.
  intros [= <-]. by exists d, m, p, a.
Qed.

(** The loop on an event notification without its [event] member. *)
Lemma dispatch_event_no_payload d m p a k s :
  dict_get "id" d = None ->
  dict_get "method" d = Some m ->
  py_eq_str m "event" = true ->
  dict_get "params" d = Some (JObj p) ->
  dict_get "contextId" p = Some a ->
  to_key a = inr k ->
  dict_get "event" p = None ->
  dispatch (JObj d) s =
    (with_event_queues (<[k := queue_of k s]> (event_queues s)) s,
     inl (KeyError (JStr "event"))).
Proof.
  intros Hid Hm Hev Hp Ha Hk He.
  unfold dispatch. run_m. rewrite Hid. run_m. rewrite Hm. run_m.
  rewrite Hev. run_m. rewrite Hp. run_m. rewrite Ha. run_m.
  rewrite Hk. run_m. unfold queue_of.
  destruct (event_queues s !! k) as [queue |] eqn:Hq.
  - rewrite decide_False by congruence. run_m. rewrite He. run_m.
    rewrite insert_id by done. by rewrite with_event_queues_id.
  - rewrite decide_True by done. run_m. by rewrite He.
Qed.

Lemma queue_created_by_notification line k w :
  reader w = Running ->
  wire_event_account line = Some k ->
  is_Some (event_queues (rpc (step w (ARecv line))) !! k).
Proof.
  intros Hrun Hacc.
  apply wire_event_account_Some in Hacc
    as (d & m & p & a & Hload & Hid & Hm & Hev & Hp & Ha & Hk).
  simpl. rewrite (step_recv_loaded _ _ _ Hrun Hload). simpl.
  destruct (dict_get "event" p) as [ev |] eqn:He.
  - rewrite (dispatch_event d m p a k ev _ Hid Hm Hev Hp Ha Hk He). simpl.
    by rewrite lookup_insert_eq.
  - rewrite (dispatch_event_no_payload d m p a k _ Hid Hm Hev Hp Ha Hk He). simpl.
    by rewrite lookup_insert_eq.
Qed.

Lemma reader_running_before t :
  forall w, reader (run w t) = Running -> reader w = Running.
Proof.
  intros w Hrun. destruct (reader w) eqn:E; [done | | |];
    rewrite reader_stopped_run in Hrun; congruence.
Qed.

Lemma notified_dec (t : list action) (k : pykey) :
  (exists line, In (ARecv line) t /\ wire_event_account line = Some k)
  \/ (forall line, In (ARecv line) t -> wire_event_account line <> Some k).
Proof.
  induction t as [| a t [(line & Hin & Hacc) | IH]].
  - right. by intros line [].
  - left. exists line. split; [by right | done].
  - destruct a as [| line | |];
      try (right; intros line' [[=] | Hin]; by apply IH).
    destruct (decide (wire_event_account line = Some k)) as [Hacc | Hacc].
    + left. exists line. split; [by left | done].
    + right. intros line' [[= <-] | Hin]; [done | by apply IH].
Qed.

(** X9.  A queue is never removed: once an account has its queue, it has
    it after every longer schedule, and [wait_for_event] for that account
    never again answers that there is no queue.  While the loop runs, an
    account has a queue exactly when an event notification naming it was
    on the wire. *)
Theorem X9_queues_are_never_evicted :
  (forall (t t' : list action) (account_id : json) (k : pykey),
      to_key account_id = inr k ->
      is_Some (event_queues (rpc (run sys_start t)) !! k) ->
      is_Some (event_queues (rpc (run sys_start (t ++ t'))) !! k)
      /\ (wait_for_event account_id (rpc (run sys_start (t ++ t')))).2 <> WAbsent)
  /\ (forall (t : list action) (k : pykey),
        reader (run sys_start t) = Running ->
        (is_Some (event_queues (rpc (run sys_start t)) !! k)
         <-> exists line, In (ARecv line) t /\ wire_event_account line = Some k)).
Proof.
  split.
  - intros t t' account_id k Hk Hq.
    assert (Hq' : is_Some (event_queues (rpc (run sys_start (t ++ t'))) !! k)).
    { rewrite run_app. by apply queue_exists_run. }
    split; [done |]. unfold wait_for_event. rewrite Hk.
    destruct Hq' as [queue ->].
    by destruct (queue_get k _) as [[s' ev] |].
  - intros t k Hrun. split.
    + intros Hq.
      destruct (notified_dec t k) as [Hex | Hnone]; [done |].
      pose proof (no_queue_run k t sys_start (lookup_empty k) Hnone) as Hno.
      rewrite Hno in Hq. by destruct Hq.
    + intros (line & Hin & Hacc).
      apply in_split in Hin as (t1 & t2 & ->).
      rewrite run_app, run_cons in Hrun |- *.
      apply queue_exists_run. apply queue_created_by_notification; [| done].
      apply reader_running_before in Hrun.
      by apply step_recv_stays_down in Hrun.
Qed.

Lemma X9_witness :
  (wait_for_event (JInt 5)
     (rpc (run sys_start ([ARecv (event_line 5 "A"); AWait (JInt 5)]
                            ++ [ACall "get_info" [] []])))).2 <> WAbsent
  /\ is_Some (event_queues (rpc (run sys_start [ARecv (event_line 5 "A")])) !! KInt 5).
Proof.
  destruct X9_queues_are_never_evicted as [Hkeep Hiff]. split.
  - apply (Hkeep [ARecv (event_line 5 "A"); AWait (JInt 5)] [ACall "get_info" [] []]
             (JInt 5) (KInt 5) eq_refl).
    vm_compute. by eexists.
  - apply Hiff; [vm_compute; reflexivity |].
    exists (event_line 5 "A"). split; [by left | vm_compute; reflexivity].
Defined.

Lemma empty_queue_stays k w a :
  reader w <> Running ->
  event_queues (rpc w) !! k = Some [] ->
  event_queues (rpc (step w a)) !! k = Some [].
Proof.
  intros Hstop Hq. destruct a as [attr args kwargs | line | account_id | c]; simpl.
  - rewrite step_call_rpc. by destruct (truthy args && truthy kwargs).
  - by rewrite step_recv_idle.
  - destruct (step_wait_cases account_id w)
      as [(x & -> & _) | (k0 & s' & ev & _ & Hg & ->)]; [done |]. simpl.
    apply queue_get_Some in Hg as (rest & Hq0 & ->). simpl.
    rewrite lookup_insert_ne; [done | congruence].
  - destruct (step_resume_cases c w)
      as [-> | [(fut' & response & Ht & Hf & ->) | (k0 & s' & ev & Ht & Hg & ->)]];
      [done | done |]. simpl.
    apply queue_get_Some in Hg as (rest & Hq0 & ->). simpl.
    rewrite lookup_insert_ne; [done | congruence].
Qed.

(** X10.  An event notification that names an account but has no
    [event] member ends the loop with [KeyError] on ["event"], yet only
    after the queue of a new account has been created: from then on
    [wait_for_event] for that account parks its caller instead of
    returning [None], and the queue stays empty for ever. *)
Theorem X10_notification_without_event_member :
  forall (w : sys) (line : string) (account_id : json) (k : pykey),
    reader w = Running ->
    wire_event_account line = Some k ->
    wire_event line = None ->
    event_queues (rpc w) !! k = None ->
    to_key account_id = inr k ->
    let w' := step w (ARecv line) in
    reader w' = Crashed (KeyError (JStr "event"))
    /\ event_queues (rpc w') !! k = Some []
    /\ forall t, wait_for_event account_id (rpc (run w' t))
                 = (rpc (run w' t), WSuspend k).
Proof.
  intros w line account_id k Hrun Hacc Hnone Hq Hk w'.
  apply wire_event_account_Some in Hacc
    as (d & m & p & a & Hload & Hid & Hm & Hev & Hp & Ha & Hka).
  assert (He : dict_get "event" p = None).
  { unfold wire_event in Hnone. rewrite Hload, Hid, Hm, Hp, Hev, Ha in Hnone.
    destruct (dict_get "event" p); [by rewrite Hka in Hnone | done]. }
  assert (E : w' = mkSys (with_event_queues (<[k := []]> (event_queues (rpc w))) (rpc w))
                         (Crashed (KeyError (JStr "event"))) (tasks w) (delivered w)).
  { unfold w'. simpl. rewrite (step_recv_loaded _ _ _ Hrun Hload).
    rewrite (dispatch_event_no_payload d m p a k _ Hid Hm Hev Hp Ha Hka He).
    simpl. unfold queue_of. by rewrite Hq. }
  assert (Hq' : event_queues (rpc w') !! k = Some []).
  { rewrite E. simpl. apply lookup_insert_eq. }
  split; [by rewrite E |]. split; [done |].
  intros t.
  assert (Hqt : event_queues (rpc (run w' t)) !! k = Some []
                /\ reader (run w' t) <> Running).
  { apply (run_ind (fun w0 => event_queues (rpc w0) !! k = Some []
                              /\ reader w0 <> Running)).
    - split; [done |]. by rewrite E.
    - intros w0 a0 [Hq0 Hstop]. split; [by apply empty_queue_stays |].
      by rewrite reader_stopped_step. }
  unfold wait_for_event, queue_get. rewrite Hk. by destruct Hqt as [-> _].
Qed.

Lemma X10_witness :
  tasks (run (step sys_start (ARecv bare_event_line)) [AWait (JInt 5)])
    = [Waiting (KInt 5)].
Proof.
  assert (Hacc : wire_event_account bare_event_line = Some (KInt 5))
    by (vm_compute; reflexivity).
  assert (Hnone : wire_event bare_event_line = None) by (vm_compute; reflexivity).
  destruct (X10_notification_without_event_member sys_start bare_event_line
              (JInt 5) (KInt 5) eq_refl Hacc Hnone eq_refl eq_refl) as (_ & _ & H).
  specialize (H []). unfold run in H |- *. simpl in H |- *.
  unfold step_wait. by rewrite H.
Defined.

(** ** What the loop prints *)

Lemma step_console_other w a :
  is_recv a = false -> console (rpc (step w a)) = console (rpc w).
Proof.
  destruct a as [attr args kwargs | line | account_id | c]; [| done | |]; intros _; simpl.
  - rewrite step_call_rpc. by destruct (truthy args && truthy kwargs).
  - destruct (step_wait_cases account_id w)
      as [(x & -> & _) | (k0 & s' & ev & _ & Hg & ->)]; [done |].
    by apply queue_get_Some in Hg as (rest & _ & ->).
  - destruct (step_resume_cases c w)
      as [-> | [(fut' & response & Ht & Hf & ->) | (k0 & s' & ev & Ht & Hg & ->)]];
      [done | done |].
    by apply queue_get_Some in Hg as (rest & _ & ->).
Qed.

Lemma wire_printed_snoc t a :
  wire_printed (t ++ [a]) = wire_printed t ++ wire_printed [a].
Proof. unfold wire_printed. apply omap_app. Qed.

Lemma console_step t w a :
  (exists rest, console (rpc w) ++ rest = wire_printed t
                /\ (reader w = Running -> rest = [])) ->
  exists rest, console (rpc (step w a)) ++ rest = wire_printed (t ++ [a])
               /\ (reader (step w a) = Running -> rest = []).
Proof.
  intros (rest & Heq & Hrest). rewrite wire_printed_snoc.
  destruct (is_recv a) eqn:Hrecv.
  2: { exists rest. rewrite (step_console_other _ _ Hrecv), (step_reader_other _ _ Hrecv).
       split; [| done]. rewrite <- Heq.
       destruct a; try done; by rewrite app_nil_r. }
  destruct a as [| line | |]; try done. simpl step.
  assert (Hstopped : forall (c' : list json) (r' : reader_status),
             c' = console (rpc w) -> r' <> Running ->
             exists rest', c' ++ rest' = wire_printed t ++ wire_printed [ARecv line]
                           /\ (r' = Running -> rest' = [])).
  { intros c' r' -> Hstop. exists (rest ++ wire_printed [ARecv line]).
    split; [| done]. by rewrite <- Heq, app_assoc. }
  destruct (reader w) eqn:Hrun;
    try (rewrite step_recv_idle by congruence; apply Hstopped; congruence).
  rewrite (Hrest eq_refl), app_nil_r in Heq.
  assert (Hquiet : forall (c' : list json) (r' : reader_status),
             c' = console (rpc w) -> wire_unrecognized line = None ->
             exists rest', c' ++ rest' = wire_printed t ++ wire_printed [ARecv line]
                           /\ (r' = Running -> rest' = [])).
  { intros c' r' -> Hnone. exists []. split; [| done].
    unfold wire_printed at 2. simpl. by rewrite Hnone, Heq. }
  destruct (json_loads line) as [v | |] eqn:Hload; cycle 1.
  { destruct (step_recv_not_loaded line w Hrun) as (Hrpc & _); [congruence |].
    apply Hquiet; [by rewrite Hrpc |]. unfold wire_unrecognized. by rewrite Hload. }
  { destruct (step_recv_not_loaded line w Hrun) as (Hrpc & _); [congruence |].
    apply Hquiet; [by rewrite Hrpc |]. unfold wire_unrecognized. by rewrite Hload. }
  rewrite (step_recv_loaded _ _ _ Hrun Hload).
  destruct (dispatch_cases v (rpc w))
    as [e | d idv k' fut' -> Hid Hk Hreq Hfut | d idv k' fut' -> Hid Hk Hreq Hfut
        | d m p a k' ev -> Hid Hm Hev Hp Ha Hk He | d m p a k' -> Hid Hm Hev Hp Ha Hk He
        | d m -> Hid Hm Hev]; cbn [rpc reader fst snd].
  - by apply Hstopped.
  - apply Hquiet; [done |]. unfold wire_unrecognized. by rewrite Hload, Hid.
  - by apply Hstopped.
  - apply Hquiet; [done |]. unfold wire_unrecognized. by rewrite Hload, Hid, Hm, Hev.
  - by apply Hstopped.
  - exists []. split; [| done]. cbn [console with_console]. rewrite app_nil_r, Heq.
    unfold wire_printed at 2. simpl. unfold wire_unrecognized.
    by rewrite Hload, Hid, Hm, Hev.
Qed.

(** X11.  The console holds, in wire order, the messages the loop could
    not place (objects without [id] whose [method] is not ["event"]):
    nothing else is ever printed, and while the loop runs none of them is
    missing. *)
Theorem X11_console_is_the_unrecognized_messages :
  forall t : list action,
    exists rest,
      console (rpc (run sys_start t)) ++ rest = wire_printed t
      /\ (reader (run sys_start t) = Running -> rest = []).
Proof.
  induction t as [| a t IH] using rev_ind.
  - exists []. by split.
  - rewrite run_snoc. by apply console_step.
Qed.

Lemma X11_witness :
  console (rpc (run sys_start [ARecv chatter_line; ARecv (event_line 5 "A")]))
    = [JObj [("method", JStr "log"); ("params", JArr [])]].
Proof.
  destruct (X11_console_is_the_unrecognized_messages
              [ARecv chatter_line; ARecv (event_line 5 "A")]) as (rest & Heq & Hrest).
  rewrite Hrest, app_nil_r in Heq by (vm_compute; reflexivity).
  rewrite Heq. vm_compute. reflexivity.
Defined.

(** ** Consuming events does not disturb calls *)

Lemma dispatch_call_side v s1 s2 :
  call_side s1 = call_side s2 ->
  call_side (dispatch v s1).1 = call_side (dispatch v s2).1
  /\ (dispatch v s1).2 = (dispatch v s2).2.
Proof.
  destruct s1 as [i1 q1 r1 f1 n1 c1], s2 as [i2 q2 r2 f2 n2 c2].
  unfold call_side; simpl. intros [= -> -> -> -> ->].
  destruct v as [| b | n | str | items | d]; unfold dispatch; run_m; try done.
  - by destruct (is_substring _ str).
  - by destruct (existsb _ items).
  - destruct (dict_get "id" d) as [idv |] eqn:Hid; run_m.
    + case_decide; run_m; [done |].
      destruct (to_key idv) as [e' | k] eqn:Hk; run_m; [done |].
      destruct (r2 !! k) as [fut |] eqn:Hreq; run_m; [| done].
      by destruct (f2 !! fut) as [[resp |] |] eqn:Hfut; run_m.
    + destruct (dict_get "method" d) as [m |] eqn:Hm; run_m; [| done].
      destruct (py_eq_str m "event") eqn:Hev; run_m; [| done].
      destruct (dict_get "params" d) as [params |] eqn:Hp; run_m; [| done].
      destruct params as [| b | n | str | items | p]; run_m; try done.
      destruct (dict_get "contextId" p) as [a |] eqn:Ha; run_m; [| done].
      destruct (to_key a) as [e' | k] eqn:Hk; run_m; [done |].
      destruct (decide (q1 !! k = None)), (decide (q2 !! k = None)); run_m;
        by destruct (dict_get "event" p) as [ev |] eqn:He; run_m.
Qed.

Lemma consumer_step w a :
  is_call a || is_recv a = false ->
  call_side (rpc (step w a)) = call_side (rpc w)
  /\ reader (step w a) = reader w.
Proof.
  intros Ha. apply orb_false_elim in Ha as [Hcall Hrecv].
  destruct (step_keeps_id_stdin w a Hcall) as [Hid Hin].
  pose proof (step_console_other w a Hrecv) as Hcon.
  split; [| by apply step_reader_other].
  unfold call_side. rewrite Hid, Hin, Hcon.
  destruct a as [| | account_id | c]; try done; simpl.
  - by destruct (step_wait_calls account_id w) as [(_ & -> & ->) _].
  - by destruct (step_resume_calls c w) as [(_ & -> & ->) _].
Qed.

Lemma call_side_step w1 w2 a :
  is_call a || is_recv a = true ->
  call_side (rpc w1) = call_side (rpc w2) ->
  reader w1 = reader w2 ->
  call_side (rpc (step w1 a)) = call_side (rpc (step w2 a))
  /\ reader (step w1 a) = reader (step w2 a).
Proof.
  intros Ha Hside Hreader.
  destruct a as [attr args kwargs | line | |]; simpl in Ha; try done; simpl.
  - rewrite !step_call_rpc, !step_call_reader. split; [| done].
    unfold call_side in *. injection Hside as Hid Hreq Hfut Hin Hcon.
    destruct (truthy args && truthy kwargs); unfold sent; simpl;
      by rewrite Hid, Hreq, Hfut, Hin, Hcon.
  - unfold step_recv. rewrite <- Hreader.
    destruct (reader w1) eqn:E1; try (split; [done | congruence]).
    unfold reader_loop. destruct line as [| c line']; [done |].
    destruct (json_loads (String c line')) as [v | |]; [| done | done].
    unfold bind, ret.
    destruct (dispatch_call_side v (rpc w1) (rpc w2) Hside) as [Hs Hr].
    destruct (dispatch v (rpc w1)) as [s1 o1], (dispatch v (rpc w2)) as [s2 o2].
    simpl in Hs, Hr. subst o2. by destruct o1 as [e | []].
Qed.

Lemma call_side_run t :
  forall w1 w2,
    call_side (rpc w1) = call_side (rpc w2) ->
    reader w1 = reader w2 ->
    call_side (rpc (run w1 t)) = call_side (rpc (run w2 (without_consumers t)))
    /\ reader (run w1 t) = reader (run w2 (without_consumers t)).
Proof.
  induction t as [| a t IH]; intros w1 w2 Hside Hreader; [done |].
  simpl without_consumers. rewrite run_cons.
  destruct (is_call a || is_recv a) eqn:Ha.
  - rewrite run_cons.
    destruct (call_side_step w1 w2 a Ha Hside Hreader) as [Hs Hr].
    by apply IH.
  - destruct (consumer_step w1 a Ha) as [Hs Hr].
    apply IH; congruence.
Qed.

(** X12.  Waiting for events, and resuming any parked task, never
    disturbs the calls: the request counter, the registry, the futures
    and their results, what is written to the child, what is printed and
    how the reader loop fares are the same as in the schedule with every
    [wait_for_event] and every resumption left out. *)
Theorem X12_event_consumers_do_not_disturb_calls :
  forall t : list action,
    call_side (rpc (run sys_start t))
      = call_side (rpc (run sys_start (without_consumers t)))
    /\ reader (run sys_start t) = reader (run sys_start (without_consumers t)).
Proof. intros t. by apply call_side_run. Qed.

(** ** Routing is exclusive *)

(** X13.  The presence of [id] alone decides the route.  A message with
    an [id] is only ever treated as a response: whatever else it carries,
    even [method] equal to ["event"], it is never queued and never
    printed.  A message without [id] never touches the registry, a
    future or the request counter. *)
Theorem X13_id_decides_the_route :
  forall (w : sys) (line : string) (d : dict),
    reader w = Running ->
    json_loads line = Loaded (JObj d) ->
    let w' := step w (ARecv line) in
    (is_Some (dict_get "id" d) ->
       event_queues (rpc w') = event_queues (rpc w)
       /\ console (rpc w') = console (rpc w))
    /\ (dict_get "id" d = None ->
        request_events (rpc w') = request_events (rpc w)
        /\ futures (rpc w') = futures (rpc w)
        /\ id (rpc w') = id (rpc w)).
Proof.
  intros w line d Hrun Hload w'. unfold w'. simpl.
  rewrite (step_recv_loaded _ _ _ Hrun Hload). simpl.
  destruct (dispatch_cases (JObj d) (rpc w))
    as [e | d0 idv k fut [= <-] Hid Hk Hreq Hfut | d0 idv k fut [= <-] Hid Hk Hreq Hfut
        | d0 m p a k ev [= <-] Hid Hm Hev Hp Ha Hk He
        | d0 m p a k [= <-] Hid Hm Hev Hp Ha Hk He
        | d0 m [= <-] Hid Hm Hev]; simpl;
    (split; [intros [x Hx] | intros Hno]); try done; congruence.
Qed.

Lemma X13_witness :
  event_queues (rpc (step (run sys_start [ACall "get_info" [] []])
                          (ARecv event_line_with_id))) = ∅
  /\ futures (rpc (step sys_start (ARecv (event_line 5 "A")))) = [].
Proof.
  split.
  - destruct (X13_id_decides_the_route (run sys_start [ACall "get_info" [] []])
                event_line_with_id
                [("id", JInt 1); ("method", JStr "event");
                 ("params", JObj [("contextId", JInt 5); ("event", JStr "A")])]
                eq_refl) as [H _]; [vm_compute; reflexivity |].
    destruct H as [-> _]; [by eexists | reflexivity].
  - destruct (X13_id_decides_the_route sys_start (event_line 5 "A")
                [("method", JStr "event");
                 ("params", JObj [("contextId", JInt 5); ("event", JStr "A")])]
                eq_refl) as [_ H]; [vm_compute; reflexivity |].
    destruct H as (_ & -> & _); reflexivity.
Defined.

(** ** What is written decodes to what was meant *)

Lemma str_app_cons x (a b : string) : String x a +:+ b = String x (a +:+ b).
Proof. reflexivity. Qed.

Lemma str_app_nil_r (a : string) : a +:+ EmptyString = a.
Proof. induction a as [| x a IH]; [done |]. by rewrite str_app_cons, IH. Qed.

Lemma str_app_assoc (a b c : string) : (a +:+ b) +:+ c = a +:+ (b +:+ c).
Proof.
  induction a as [| x a IH]; [done |]. by rewrite !str_app_cons, IH.
Qed.

Lemma prepend_nil r : prepend [] r = r.
Proof. by destruct r. Qed.

Lemma prepend_app t1 t2 r : prepend (t1 ++ t2) r = prepend t1 (prepend t2 r).
Proof. destruct r; simpl; [by rewrite app_assoc | done | done]. Qed.

Lemma lex_cons st c s :
  lex st (String c s) =
    match lex_char st c with
    | LNext emit st' => prepend emit (lex st' s)
    | LBad => LexBad
    | LOutside => LexOutside
    end.
Proof. reflexivity. Qed.

(** One step of the scanner on a known character. *)
Ltac lex_step :=
  rewrite lex_cons;
  match goal with
  | |- context [lex_char ?st ?c] =>
      let e := eval vm_compute in (lex_char st c) in
      change (lex_char st c) with e
  end;
  cbv beta iota; rewrite ?prepend_nil.

(** Strings: every character survives escaping and scanning. *)
Lemma lex_escape_char c acc tail :
  lex (LStr acc) (escape_char c +:+ tail) = lex (LStr (acc +:+ str1 c)) tail.
Proof.
  destruct c as [[] [] [] [] [] [] [] []];
    match goal with
    | |- context [escape_char ?c] =>
        let e := eval vm_compute in (escape_char c) in
        change (escape_char c) with e
    end;
    rewrite ?str_app_cons; change (EmptyString +:+ tail) with tail;
    repeat lex_step; reflexivity.
Qed.

Lemma str_app_snoc (acc : string) c s : (acc +:+ str1 c) +:+ s = acc +:+ String c s.
Proof. by rewrite str_app_assoc. Qed.

Lemma lex_escape_string s acc tail :
  lex (LStr acc) (escape_string s +:+ String dquote tail)
    = prepend [TStr (acc +:+ s)] (lex LIdle tail).
Proof.
  revert acc. induction s as [| c s IH]; intros acc; simpl escape_string.
  - change (EmptyString +:+ String dquote tail) with (String dquote tail).
    lex_step. by rewrite str_app_nil_r.
  - rewrite str_app_assoc, lex_escape_char, IH. by rewrite str_app_snoc.
Qed.

Lemma lex_encode_str s tail :
  lex LIdle (encode_str s +:+ tail) = prepend [TStr s] (lex LIdle tail).
Proof.
  unfold encode_str, q. rewrite str_app_cons. lex_step.
  rewrite str_app_assoc. change (str1 dquote +:+ tail) with (String dquote tail).
  apply (lex_escape_string s EmptyString).
Qed.

(** Numbers: the digits [repr] writes are read back to the same value. *)

Lemma lex_number_end (st : lstate) (tok : token) (v : Z) rest :
  ends_number rest = true ->
  lex_end st = LexOk [TScalar (JInt v)] ->
  (forall c, digit_of c = None -> lex_char st c = lex_after_int v c) ->
  lex st rest = prepend [TScalar (JInt v)] (lex LIdle rest).
Proof.
  intros Hend Hlast Hchar. destruct rest as [| c rest]; [by simpl; rewrite Hlast |].
  unfold ends_number in Hend.
  destruct (digit_of c) eqn:Hd; [done |].
  rewrite !lex_cons, (Hchar c Hd). unfold lex_after_int.
  apply negb_true_iff in Hend. rewrite Hend.
  change (lex_char LIdle c) with (lex_idle c).
  destruct (lex_idle c) as [emit st' | |]; [| done | done].
  by destruct (lex st' rest).
Qed.

Lemma lex_digits d :
  forall neg acc rest,
    ends_number rest = true ->
    lex (LDigits neg acc) (NilEmpty.string_of_uint d +:+ rest)
      = prepend [TScalar (JInt (if neg then - digits_value d acc else digits_value d acc))]
                (lex LIdle rest).
Proof.
  induction d as [| d IH | d IH | d IH | d IH | d IH | d IH | d IH | d IH | d IH | d IH];
    intros neg acc rest Hend;
    [ apply (lex_number_end _ (TScalar JNull)); [done | done |];
      intros c Hc; simpl; by rewrite Hc
    | .. ];
    cbn [NilEmpty.string_of_uint digits_value]; rewrite str_app_cons, lex_cons;
    cbn [lex_char];
    match goal with
    | |- context [digit_of ?c] =>
        let e := eval vm_compute in (digit_of c) in change (digit_of c) with e
    end;
    cbv beta iota zeta; rewrite prepend_nil; by apply IH.
Qed.

Lemma digits_value_pos d :
  forall acc : positive, digits_value d (Z.pos acc) = Z.pos (Pos.of_uint_acc d acc).
Proof.
  induction d; intros acc; simpl; [done | ..];
    match goal with
    | IH : forall _, digits_value _ _ = _ |- _ => rewrite <- IH; f_equal; lia
    end.
Qed.

Lemma to_uint_leading p : leading_digit (Pos.to_uint p).
Proof.
  assert (Hn : Pos.to_uint p = Decimal.unorm (Pos.to_uint p)).
  { rewrite <- DecimalPos.Unsigned.to_of, DecimalPos.Unsigned.of_to. reflexivity. }
  assert (Hz : forall d, Decimal.nzhead d = Decimal.Nil \/ leading_digit (Decimal.nzhead d)).
  { induction d; simpl; auto. }
  unfold Decimal.unorm in Hn. destruct (Hz (Pos.to_uint p)) as [E | Hl].
  - rewrite E in Hn. by destruct (DecimalPos.Unsigned.to_uint_nonzero p).
  - rewrite Hn. by destruct (Decimal.nzhead (Pos.to_uint p)).
Qed.

Lemma lex_positive (p : positive) (neg : bool) (rest : string) :
  ends_number rest = true ->
  lex (if neg then LMinus else LIdle) (NilEmpty.string_of_uint (Pos.to_uint p) +:+ rest)
    = prepend [TScalar (JInt (if neg then Z.neg p else Z.pos p))] (lex LIdle rest).
Proof.
  intros Hend. pose proof (to_uint_leading p) as Hl.
  pose proof (DecimalPos.Unsigned.of_to p) as Hp.
  destruct (Pos.to_uint p) as [| d | d | d | d | d | d | d | d | d | d]; try done;
    cbn [NilEmpty.string_of_uint]; rewrite str_app_cons;
    (destruct neg; lex_step; rewrite (lex_digits d _ _ rest Hend);
     do 3 f_equal; rewrite digits_value_pos;
     simpl in Hp; injection Hp as ->; reflexivity).
Qed.

Lemma lex_int n rest :
  ends_number rest = true ->
  lex LIdle (int_repr n +:+ rest) = prepend [TScalar (JInt n)] (lex LIdle rest).
Proof.
  intros Hend. unfold int_repr.
  assert (Hnz : forall p, NilZero.string_of_uint (Pos.to_uint p)
                          = NilEmpty.string_of_uint (Pos.to_uint p)).
  { intros p. pose proof (to_uint_leading p). by destruct (Pos.to_uint p). }
  destruct n as [| p | p]; simpl Z.to_int; cbn [NilZero.string_of_int].
  - change (NilZero.string_of_uint Decimal.zero) with "0".
    rewrite str_app_cons. lex_step.
    change (EmptyString +:+ rest) with rest.
    by apply (lex_number_end _ (TScalar JNull)).
  - rewrite Hnz. by apply (lex_positive p false).
  - rewrite Hnz, str_app_cons. lex_step. by apply (lex_positive p true).
Qed.

Lemma scans_join {A} (f : A -> string) (g : A -> list token) (l : list A) :
  Forall (fun a => scans (f a) (g a)) l ->
  scans (join ", " (map f l)) (separated (map g l)).
Proof.
  induction 1 as [| a l Ha Hl IH]; intros rest Hend.
  - by rewrite prepend_nil.
  - destruct l as [| b l]; [by apply Ha |].
    change (join ", " (map f (a :: b :: l)))
      with (f a +:+ ", " +:+ join ", " (map f (b :: l))).
    change (separated (map g (a :: b :: l)))
      with (g a ++ TComma :: separated (map g (b :: l))).
    rewrite !str_app_assoc, Ha by reflexivity.
    rewrite !str_app_cons. do 2 lex_step.
    change (EmptyString +:+ ?x) with x.
    rewrite IH by done.
    by rewrite (prepend_app (g a) (TComma :: _)), <- (prepend_app [TComma]).
Qed.

Lemma scans_json_dumps v : scans (json_dumps v) (tokens v).
Proof.
  induction v as [| b | n | s | items IH | members IH] using json_induction;
    intros rest Hend.
  - simpl json_dumps. rewrite !str_app_cons. by do 4 lex_step.
  - destruct b; simpl json_dumps; rewrite !str_app_cons.
    + by do 4 lex_step.
    + by do 5 lex_step.
  - by apply lex_int.
  - apply lex_encode_str.
  - simpl json_dumps. simpl tokens.
    rewrite !str_app_assoc, str_app_cons. lex_step.
    change (EmptyString +:+ ?x) with x.
    rewrite (scans_join json_dumps tokens items IH) by reflexivity.
    rewrite str_app_cons. lex_step. change (EmptyString +:+ rest) with rest.
    change (TLBrack :: separated (map tokens items) ++ [TRBrack])
      with ([TLBrack] ++ separated (map tokens items) ++ [TRBrack]).
    by rewrite !prepend_app.
  - simpl json_dumps. simpl tokens.
    rewrite !str_app_assoc, str_app_cons. lex_step.
    change (EmptyString +:+ ?x) with x.
    assert (Hm : Forall (fun kv : string * json =>
                           scans (encode_str kv.1 +:+ ": " +:+ json_dumps kv.2)
                                 (TStr kv.1 :: TColon :: tokens kv.2)) members).
    { eapply Forall_impl; [exact IH |].
      intros [k x] Hx rest' Hend'. cbn [fst snd] in *.
      rewrite !str_app_assoc, lex_encode_str, !str_app_cons. do 2 lex_step.
      change (EmptyString +:+ ?y) with y.
      rewrite Hx by done.
      change (TStr k :: TColon :: tokens x) with ([TStr k] ++ [TColon] ++ tokens x).
      by rewrite !prepend_app. }
    rewrite (scans_join _ _ members Hm) by reflexivity.
    rewrite str_app_cons. lex_step. change (EmptyString +:+ rest) with rest.
    change (TLBrace :: ?m ++ [TRBrace]) with ([TLBrace] ++ m ++ [TRBrace]).
    by rewrite !prepend_app.
Qed.

(** Objects and arrays: the recogniser rebuilds what was written. *)

Lemma separated_cons {A} (g : A -> list token) (x : A) (l : list A) :
  separated (map g (x :: l)) = g x ++ flat_map (fun y => TComma :: g y) l.
Proof.
  revert x. induction l as [| y l IH]; intros x; simpl; [by rewrite app_nil_r |].
  f_equal. f_equal. apply IH.
Qed.

Lemma fresh_key_app k l1 l2 :
  fresh_key k (l1 ++ l2) = fresh_key k l1 && fresh_key k l2.
Proof.
  induction l1 as [| k' l1 IH]; simpl; [done |]. by rewrite IH, andb_assoc.
Qed.

Lemma unique_keys_middle l1 k l2 :
  unique_keys (l1 ++ k :: l2) = true -> fresh_key k l1 = true.
Proof.
  induction l1 as [| k' l1 IH]; simpl; [done |].
  intros H. apply andb_true_iff in H as [Hf Hu].
  rewrite fresh_key_app in Hf. simpl in Hf.
  apply andb_true_iff in Hf as [_ Hf]. apply andb_true_iff in Hf as [Hne _].
  rewrite String.eqb_sym, Hne. by apply IH.
Qed.

Lemma dict_set_fresh k v acc :
  fresh_key k (map fst acc) = true -> dict_set k v acc = acc ++ [(k, v)].
Proof.
  induction acc as [| [k' v'] acc IH]; simpl; [done |].
  intros H. apply andb_true_iff in H as [Hne Hf].
  apply negb_true_iff in Hne. rewrite Hne. by rewrite IH.
Qed.

Lemma parse_step m stack t toks :
  parse m stack (t :: toks) =
    match parse_token m stack t with
    | Some p => parse p.1 p.2 toks
    | None => None
    end.
Proof. simpl. by destruct (parse_token m stack t) as [[m' stack'] |]. Qed.

Lemma parse_first_item v stack toks :
  parse MArrFirst stack (tokens v ++ toks)
    = parse MValue (FArr [] :: stack) (tokens v ++ toks).
Proof. by destruct v. Qed.

Lemma parse_items items :
  Forall parses items ->
  forall acc stack toks,
    parse (MArrAfter acc) stack
          (flat_map (fun x => TComma :: tokens x) items ++ TRBrack :: toks)
      = parse (deliver (JArr (acc ++ items)) stack).1
              (deliver (JArr (acc ++ items)) stack).2 toks.
Proof.
  induction 1 as [| x items Hx Hitems IH]; intros acc stack toks.
  - rewrite app_nil_r. cbn [flat_map app]. by rewrite parse_step.
  - cbn [flat_map]. rewrite <- !app_assoc, <- app_comm_cons.
    rewrite parse_step. cbn [parse_token fst snd]. rewrite Hx. cbn [deliver fst snd].
    rewrite IH. by rewrite <- app_assoc.
Qed.

Lemma parse_members members :
  Forall (fun kv => parses kv.2) members ->
  forall acc stack toks,
    unique_keys (map fst (acc ++ members)) = true ->
    parse (MObjAfter acc) stack
          (flat_map (fun kv => TComma :: TStr kv.1 :: TColon :: tokens kv.2) members
             ++ TRBrace :: toks)
      = parse (deliver (JObj (acc ++ members)) stack).1
              (deliver (JObj (acc ++ members)) stack).2 toks.
Proof.
  induction 1 as [| [k x] members Hx Hmembers IH]; intros acc stack toks Huniq.
  - rewrite app_nil_r. cbn [flat_map app]. by rewrite parse_step.
  - cbn [flat_map fst snd]. rewrite <- !app_assoc, <- !app_comm_cons.
    do 3 (rewrite parse_step; cbn [parse_token fst snd]).
    cbn [snd] in Hx. rewrite Hx. cbn [deliver fst snd].
    rewrite dict_set_fresh.
    + rewrite IH; rewrite <- app_assoc; done.
    + rewrite map_app in Huniq. by apply unique_keys_middle in Huniq.
Qed.

Lemma Forall_checked {A} (f : A -> bool) (Q : A -> Prop) (l : list A) :
  Forall (fun x => f x = true -> Q x) l -> forallb f l = true -> Forall Q l.
Proof.
  induction 1 as [| x l Hx Hl IH]; simpl; intros H; constructor;
    apply andb_true_iff in H as [? ?]; auto.
Qed.

Lemma parses_well_formed v : well_formed v = true -> parses v.
Proof.
  induction v as [| b | n | s | items IH | members IH] using json_induction;
    intros Hwf stack toks;
    try (cbn [tokens app]; by rewrite parse_step).
  - assert (Hitems : Forall parses items).
    { simpl in Hwf. by apply (Forall_checked well_formed parses items IH). }
    destruct items as [| x items].
    + cbn [tokens map separated app].
      by do 2 (rewrite parse_step; cbn [parse_token parse_value fst snd]).
    + cbn [tokens]. rewrite separated_cons, <- !app_assoc, <- app_comm_cons.
      rewrite parse_step. cbn [parse_token parse_value fst snd].
      apply Forall_cons in Hitems as [Hx Hitems].
      rewrite <- !app_assoc, parse_first_item, Hx. cbn [deliver fst snd].
      change ([TRBrack] ++ toks) with (TRBrack :: toks).
      by rewrite (parse_items items Hitems).
  - simpl in Hwf. apply andb_true_iff in Hwf as [Huniq Hwf].
    assert (Hmembers : Forall (fun kv : string * json => parses kv.2) members).
    { by apply (Forall_checked (fun kv : string * json => well_formed kv.2)
                  (fun kv => parses kv.2) members IH). }
    destruct members as [| [k x] members].
    + cbn [tokens map separated app].
      by do 2 (rewrite parse_step; cbn [parse_token parse_value fst snd]).
    + cbn [tokens].
      rewrite (separated_cons (fun kv : string * json => TStr kv.1 :: TColon :: tokens kv.2)).
      cbn [fst snd]. rewrite <- !app_assoc, <- !app_comm_cons.
      do 3 (rewrite parse_step; cbn [parse_token parse_value fst snd]).
      apply Forall_cons in Hmembers as [Hx Hmembers]. cbn [snd] in Hx.
      rewrite <- ?app_assoc, Hx. cbn [deliver fst snd dict_set].
      change ([TRBrace] ++ toks) with (TRBrace :: toks).
      by rewrite (parse_members members Hmembers [(k, x)]).
Qed.

Lemma printable_seven_bit c :
  printable c = true -> (N_of_ascii c <? 128)%N = true /\ (N_of_ascii c =? 0)%N = false.
Proof.
  unfold printable. intros H. apply andb_true_iff in H as [Hlo Hhi].
  apply N.leb_le in Hlo, Hhi. split; [apply N.ltb_lt | apply N.eqb_neq]; lia.
Qed.

Lemma seven_bit_app body tail :
  all_printable body = true -> seven_bit tail = true ->
  seven_bit (body +:+ tail) = true.
Proof.
  intros Hbody Htail. induction body as [| c body IH]; [done |].
  simpl in Hbody. apply andb_true_iff in Hbody as [Hc Hbody].
  rewrite str_app_cons. simpl.
  destruct (printable_seven_bit c Hc) as [-> _]. by apply IH.
Qed.

Lemma plain_line_app body tail :
  all_printable body = true -> plain_line tail = true ->
  plain_line (body +:+ tail) = true.
Proof.
  intros Hbody Htail.
  unfold plain_line in *. apply andb_true_iff in Htail as [Hseven Hnul].
  apply negb_true_iff in Hnul.
  rewrite (seven_bit_app _ _ Hbody Hseven). simpl. apply negb_true_iff.
  destruct body as [| c [| c' body]].
  - exact Hnul.
  - simpl in Hbody. rewrite andb_true_r in Hbody.
    destruct (printable_seven_bit c Hbody) as [_ Hc].
    change (nul_led (String c tail) = false).
    destruct tail as [| c' [| c'' tail]]; simpl in *; rewrite Hc; simpl; [done | done |].
    by apply orb_false_iff in Hnul as [-> _].
  - simpl in Hbody. apply andb_true_iff in Hbody as [Hc Hbody].
    apply andb_true_iff in Hbody as [Hc' _].
    destruct (printable_seven_bit c Hc) as [_ E], (printable_seven_bit c' Hc') as [_ E'].
    rewrite !str_app_cons. simpl. by rewrite E, E'.
Qed.

Lemma loads_dumps_tail v tail :
  well_formed v = true ->
  ends_number tail = true ->
  plain_line tail = true ->
  lex LIdle tail = LexOk [] ->
  json_loads (json_dumps v +:+ tail) = Loaded v.
Proof.
  intros Hwf Hend Hplain Htail. unfold json_loads.
  rewrite (plain_line_app _ _ (json_dumps_printable v) Hplain).
  rewrite (scans_json_dumps v tail Hend), Htail. simpl.
  by rewrite (parses_well_formed v Hwf [] []).
Qed.

Lemma request_line_decodes attr args kwargs n :
  forallb well_formed args = true ->
  well_formed (JObj kwargs) = true ->
  json_loads (request_line attr args kwargs n)
    = Loaded (request_object attr args kwargs n).
Proof.
  intros Hargs Hkw. unfold request_line.
  apply (loads_dumps_tail (request_object attr args kwargs n) nl);
    [| reflexivity | reflexivity | reflexivity].
  assert (Hparams : well_formed (if truthy kwargs then JObj kwargs else JArr args) = true)
    by (by destruct (truthy kwargs)).
  unfold request_object.
  change (well_formed (JObj ?m))
    with (unique_keys (map fst m) && forallb (fun kv => well_formed (snd kv)) m).
  cbn [map fst snd forallb]. rewrite Hparams. reflexivity.
Qed.

Lemma requests_from_decode t :
  forallb call_well_formed t = true ->
  forall n, map json_loads (requests_from n t) = map Loaded (requests_meant n t).
Proof.
  induction t as [| a t IH]; intros Hwf n; [done |].
  simpl in Hwf. apply andb_true_iff in Hwf as [Ha Hwf].
  destruct a as [attr args kwargs | | |]; simpl; try by apply IH.
  rewrite !map_app, IH by done. f_equal.
  destruct (truthy args && truthy kwargs); [done |]. simpl.
  simpl in Ha. apply andb_true_iff in Ha as [Hargs Hkw].
  by rewrite request_line_decodes.
Qed.

(** X14.  What is written decodes to what was meant: for calls whose
    arguments are JSON values with one binding per key, decoding the
    lines of the child's standard input gives back, in order, the request
    objects of the accepted calls, with the method name, the parameters
    (quotes, line breaks, nesting and all) and the id unchanged. *)
Theorem X14_requests_decode_to_what_was_meant :
  forall t : list action,
    forallb call_well_formed t = true ->
    map json_loads (stdin (rpc (run sys_start t)))
      = map Loaded (requests_meant 0 t).
Proof.
  intros t Hwf. destruct (request_log_from t sys_start) as [_ ->]. simpl.
  by apply requests_from_decode.
Qed.

Lemma X14_witness :
  map json_loads (stdin (rpc (run sys_start awkward_calls)))
    = map Loaded (requests_meant 0 awkward_calls)
  /\ length (requests_meant 0 awkward_calls) = 2%nat.
Proof.
  split; [| reflexivity].
  apply X14_requests_decode_to_what_was_meant. vm_compute. reflexivity.
Defined.

(** ** The registry holds exactly the calls in flight *)

Lemma in_flight_step w a :
  registry_ok (rpc w) ->
  pending_registered (rpc w) /\ length (futures (rpc w)) = length (stdin (rpc w)) ->
  pending_registered (rpc (step w a))
  /\ length (futures (rpc (step w a))) = length (stdin (rpc (step w a))).
Proof.
  intros [Hreg Hinj] [Hpend Hlen].
  destruct a as [attr args kwargs | line | account_id | c]; simpl.
  - rewrite step_call_rpc. destruct (truthy args && truthy kwargs); [done |].
    split; [| simpl; rewrite !length_app; simpl; lia].
    intros fut. simpl. intros Hfut.
    destruct (decide (fut = length (futures (rpc w)))) as [-> | Hne].
    + exists (id (rpc w) + 1). apply lookup_insert_eq.
    + assert (Hlt : (fut < length (futures (rpc w)))%nat).
      { apply lookup_lt_Some in Hfut. rewrite length_app in Hfut. simpl in Hfut. lia. }
      rewrite lookup_app_l in Hfut by done.
      destruct (Hpend fut Hfut) as [r Hr]. exists r.
      rewrite lookup_insert_ne; [done |].
      destruct (Hreg _ _ Hr) as [(r' & [= <-] & Hle) _]. intros [= E]. lia.
  - destruct (reader w) eqn:Hrun; try (by rewrite step_recv_idle by congruence).
    destruct (json_loads line) as [v | |] eqn:Hload.
    + rewrite (step_recv_loaded _ _ _ Hrun Hload); simpl.
      destruct (dispatch_cases v (rpc w))
        as [e | d idv k fut' -> Hid Hk Hreq Hfut | d idv k fut' -> Hid Hk Hreq Hfut
            | d m p a k ev -> Hid Hm Hev Hp Ha Hk He | d m p a k -> Hid Hm Hev Hp Ha Hk He
            | d m -> Hid Hm Hev]; simpl; try done.
      * split; [| by rewrite length_insert].
        intros fut. simpl. intros Hf.
        destruct (decide (fut = fut')) as [-> | Hne].
        { rewrite list_lookup_insert_eq in Hf by (by eapply lookup_lt_Some). done. }
        rewrite list_lookup_insert_ne in Hf by done.
        destruct (Hpend fut Hf) as [r Hr]. exists r.
        rewrite lookup_delete_ne; [done |]. intros ->. congruence.
      * by destruct (Hreg _ _ Hreq) as [_ Hf].
    + by destruct (step_recv_not_loaded line w Hrun) as [-> _]; [congruence |].
    + by destruct (step_recv_not_loaded line w Hrun) as [-> _]; [congruence |].
  - destruct (step_wait_calls account_id w) as [(_ & Hr & Hf) _].
    destruct (step_keeps_id_stdin w (AWait account_id) eq_refl) as [_ Hs].
    simpl in Hs. unfold pending_registered. by rewrite Hr, Hf, Hs.
  - destruct (step_resume_calls c w) as [(_ & Hr & Hf) _].
    destruct (step_keeps_id_stdin w (AResume c) eq_refl) as [_ Hs].
    simpl in Hs. unfold pending_registered. by rewrite Hr, Hf, Hs.
Qed.

(** X15.  After every schedule (callers are not cancelled) the registry
    holds exactly the calls in flight: a future is pending if and only if
    it is registered, under exactly one request id, and there is one
    future per request written to the child.  So no pending call is ever
    out of the reader loop's reach, and no resolved one is left behind in
    the registry. *)
Theorem X15_registry_is_the_calls_in_flight :
  forall (t : list action) (fut : nat),
    let s := rpc (run sys_start t) in
    (futures s !! fut = Some None <-> exists k, request_events s !! k = Some fut)
    /\ (forall k1 k2, request_events s !! k1 = Some fut ->
                      request_events s !! k2 = Some fut -> k1 = k2)
    /\ length (futures s) = length (stdin s).
Proof.
  intros t fut s.
  assert (H : registry_ok s /\ pending_registered s
              /\ length (futures s) = length (stdin s)).
  { unfold s.
    apply (run_ind (fun w => registry_ok (rpc w) /\ pending_registered (rpc w)
                             /\ length (futures (rpc w)) = length (stdin (rpc w)))).
    - split; [apply registry_ok_start |]. split; [| done].
      intros f. simpl. by rewrite lookup_nil.
    - intros w a (Hreg & Hrest). split; [by apply registry_ok_step |].
      by apply in_flight_step. }
  destruct H as ([Hreg Hinj] & Hpend & Hlen).
  split; [| split; [| done]].
  - split.
    + intros Hf. destruct (Hpend fut Hf) as [r Hr]. by exists (KInt r).
    + intros [k Hk]. by destruct (Hreg k fut Hk).
  - intros k1 k2. apply Hinj.
Qed.

Lemma X15_witness :
  exists k,
    request_events
      (rpc (run sys_start [ACall "get_info" [] []; ACall "get_info" [] [];
                           ARecv (result_line 1 "one")])) !! k = Some 1%nat.
Proof.
  destruct (X15_registry_is_the_calls_in_flight
              [ACall "get_info" [] []; ACall "get_info" [] [];
               ARecv (result_line 1 "one")] 1%nat) as [[H _] _].
  apply H. vm_compute. reflexivity.
Defined.
